(** * Seeded numeric sampling core of faker: [NumberModule] and [InternetModule]

  A shallow embedding of [src/modules/number/index.ts] (the number module
  and the internet module that follows it in the same file).

  Numbers.  A JavaScript [number] is read in two ways.  In [NumberModule]
  and [InternetModule] it is an exact rational ([Q]): [Math.floor],
  [Math.ceil], [/], [*] and [+] are the exact operations.  This reading
  carries what does not depend on rounding: the order of the checks, the
  errors, the draws consumed, and the values on the paths where binary64
  arithmetic is exact (integer bounds with [min = 0] and a power of two for
  [delta], as in [ipv4], [mac], [port] and [color]).  In [Binary64] the
  methods [int] and [float] are written once more on IEEE-754 binary64
  numbers, and what turns on rounding is settled there.  A [bigint] is a
  [Z].  The 32-bit operators ([<<], [>>>], [|], [&], [~]) are written out on
  [Z] with their wrap-around in [Module JS].

  Effects.  The only state is the position of the randomizer in its
  sequence of draws; a thrown [FakerError] is an outcome.  Every method is a
  computation in the small state-and-error monad [Gen]. *)

From Stdlib Require Import ZArith QArith Qround Qpower Qcanon Lia Lqa Bool List.
From Stdlib Require Import Ascii String Decimal DecimalString.
From Stdlib Require DecimalFacts DecimalPos.
From Stdlib Require Floats.
Import ListNotations.

Local Open Scope Z_scope.

(** ** Errors *)

(** [FakerError] with the message each [throw] site builds; the interpolated
  values are the constructor's arguments. *)
Inductive FakerError : Type :=
| MultipleOfNotInteger
  (* multipleOf should be an integer. *)
| MultipleOfNotPositive
  (* multipleOf should be greater than 0. *)
| NoSuitableInteger (min max : Q)
  (* No suitable integer value between ${min} and ${max} found. *)
| MaxNotGreaterThanMin (min max : Q)
  (* Max ${max} should be greater than min ${min}. *)
| ConflictingOptions
  (* multipleOf and fractionDigits cannot be set at the same time. *)
| FractionDigitsNotInteger
  (* fractionDigits should be an integer. *)
| FractionDigitsNegative
  (* fractionDigits should be greater than or equal to 0. *)
| MaxNotLargerThanMin (min max : Z)
  (* Max ${max} should be larger than min ${min}. *)
| NoSuitableBigint (min max : Z)
  (* No suitable bigint value between ${min} and ${max} found. *)
| MinValueTooSmall (min : Q)
  (* Min value ${min} should be 1 or greater. *)
| MaxValueTooLarge (max : Q)
  (* Max value ${max} should be 3999 or less. *)
| InvalidCidrBlock (cidrBlock : string)
  (* Invalid CIDR block provided: ${cidrBlock}. Must be in the format x.x.x.x/y. *).

Inductive Outcome (A : Type) : Type :=
| Returns (a : A)
| Throws (e : FakerError).

Arguments Returns {A} a.
Arguments Throws {A} e.

(** ** The randomizer *)

Module Randomizer.

(** Modelled from the spec: the randomizer ([faker._randomizer]) is not part
    of the sources at hand.  It is "a stateful object producing a
    deterministic sequence of reals in [0,1)"; the only state carried
    across calls is "its position in the deterministic sequence". *)
Record t : Type := mk { draws : nat -> Q; position : nat }.

(** Every draw is a real in [0,1). *)
Definition valid (rz : t) : Prop :=
  forall n, (0 <= draws rz n /\ draws rz n < 1)%Q.

Definition advance (rz : t) : t :=
  {| draws := draws rz; position := S (position rz) |}.

Definition peek (rz : t) : Q := draws rz (position rz).

End Randomizer.

(** ** The monad of generator methods *)

Definition Gen (A : Type) : Type := Randomizer.t -> Outcome A * Randomizer.t.

Definition ret {A} (a : A) : Gen A := fun rz => (Returns a, rz).

Definition throw {A} (e : FakerError) : Gen A := fun rz => (Throws e, rz).

Definition bind {A B} (m : Gen A) (k : A -> Gen B) : Gen B :=
  fun rz =>
    match m rz with
    | (Returns a, rz') => k a rz'
    | (Throws e, rz') => (Throws e, rz')
    end.

(** [randomizer.next()] *)
Definition next : Gen Q :=
  fun rz => (Returns (Randomizer.peek rz), Randomizer.advance rz).

Declare Scope gen_scope.
Delimit Scope gen_scope with gen.
Notation "x <- m ;; k" := (bind m (fun x => k))
  (at level 61, m at next level, right associativity) : gen_scope.

(** ** JavaScript numbers, 32-bit operators and strings *)

Module JS.

Local Open Scope Q_scope.

(** [Number.isInteger] *)
Definition isInteger (q : Q) : bool :=
  (Qnum q mod Zpos (Qden q) =? 0)%Z.

(** [a < b] on numbers *)
Definition ltb (a b : Q) : bool := negb (Qle_bool b a).

(** [x ?? d] and destructuring defaults *)
Definition default {A} (d : A) (x : option A) : A :=
  match x with Some a => a | None => d end.

(** [Number.MAX_SAFE_INTEGER] *)
Definition MAX_SAFE_INTEGER : Q := inject_Z (2 ^ 53 - 1).

(** [10 ** e] in exact arithmetic, for an integer exponent, the only case in
    which the sources use the value: [10 ** -fractionDigits] is read after
    [fractionDigits] has passed [Number.isInteger], and [10 ** -logPrecision]
    under [Number.isInteger(logPrecision)].  (The engine's value is the
    nearest binary64 number, and 0 once the exponent is below -323; see
    [Binary64], where [**] is a parameter.) *)
Definition pow10 (e : Q) : Q := Qpower 10 (Qfloor e).

(** Search for [k >= k0] with [10 ^ k = target], given [p = 10 ^ k0]. *)
Fixpoint find_pow10 (fuel : nat) (k0 p target : Z) : option Z :=
  if (p =? target)%Z then Some k0
  else match fuel with
       | O => None
       | S fuel' =>
           if (target <? p)%Z then None
           else find_pow10 fuel' (k0 + 1)%Z (p * 10)%Z target
       end.

(** [Math.log10(x)] as far as [Number.isInteger] can see it: [Some k] when
    [x] is exactly [10 ^ k], [None] when the logarithm is not an integer
    (irrational, [NaN] or [-Infinity]). *)
Definition log10 (x : Q) : option Z :=
  let n := Qnum (Qred x) in
  let d := Zpos (Qden (Qred x)) in
  if (d =? 1)%Z then find_pow10 (S (Z.to_nat (Z.log2 n))) 0 1 n
  else if (n =? 1)%Z then
    option_map Z.opp (find_pow10 (S (Z.to_nat (Z.log2 d))) 0 1 d)
  else None.

Local Open Scope Z_scope.

(** [ToInt32] and [ToUint32] of an integer *)
Definition toInt32 (z : Z) : Z := (z + 2 ^ 31) mod 2 ^ 32 - 2 ^ 31.
Definition toUint32 (z : Z) : Z := z mod 2 ^ 32.

(** [a << n] *)
Definition shl (a n : Z) : Z := toInt32 (Z.shiftl (toInt32 a) (toUint32 n mod 32)).
(** [a >>> n] *)
Definition ushr (a n : Z) : Z := Z.shiftr (toUint32 a) (toUint32 n mod 32).
(** [a | b] *)
Definition bor (a b : Z) : Z := toInt32 (Z.lor (toInt32 a) (toInt32 b)).
(** [a & b] *)
Definition band (a b : Z) : Z := toInt32 (Z.land (toInt32 a) (toInt32 b)).
(** [~a] *)
Definition bnot (a : Z) : Z := toInt32 (Z.lnot (toInt32 a)).

(** [\d] *)
Definition isDigit (c : ascii) : bool :=
  let n := nat_of_ascii c in (48 <=? n)%nat && (n <=? 57)%nat.

Definition digitValue (c : ascii) : Z := Z.of_nat (nat_of_ascii c) - 48.

(** [Number(s)] and [Number.parseInt(s)] on a string of decimal digits, the
    only strings that reach them past the pattern test. *)
Fixpoint parseDigits (acc : Z) (s : string) : Z :=
  match s with
  | EmptyString => acc
  | String c s' => parseDigits (acc * 10 + digitValue c) s'
  end.
Definition Number (s : string) : Z := parseDigits 0 s.
Definition parseInt (s : string) : Z := parseDigits 0 s.

(** [s.split(sep)] for a one-character separator *)
Fixpoint split (sep : ascii) (s : string) : list string :=
  match s with
  | EmptyString => [EmptyString]
  | String c s' =>
      if Ascii.eqb c sep then EmptyString :: split sep s'
      else match split sep s' with
           | [] => [String c EmptyString]
           | piece :: pieces => String c piece :: pieces
           end
  end.

(** [xs.join(sep)] *)
Fixpoint join (sep : string) (xs : list string) : string :=
  match xs with
  | [] => EmptyString
  | [x] => x
  | x :: rest => (x ++ sep ++ join sep rest)%string
  end.

(** [String(z)] for an integer: decimal digits, no leading zeros, a minus
    sign when negative. *)
Definition toString (z : Z) : string := NilZero.string_of_int (Z.to_int z).

(** [k.repeat(n)] *)
Fixpoint repeat (k : string) (n : nat) : string :=
  match n with
  | O => EmptyString
  | S n' => (k ++ repeat k n')%string
  end.

(** The digits of [Number.prototype.toString(radix)] *)
Definition digitChars : string := "0123456789abcdefghijklmnopqrstuvwxyz".

Definition digitChar (d : Z) : ascii :=
  match String.get (Z.to_nat d) digitChars with
  | Some c => c
  | None => "0"%char
  end.

(** The digits of a positive integer, most significant first, in front of
    [acc]; [fuel] bounds the number of digits. *)
Fixpoint digitsRadix (fuel : nat) (radix n : Z) (acc : string) : string :=
  match fuel with
  | O => acc
  | S fuel' =>
      let acc' := String (digitChar (n mod radix)) acc in
      if n / radix =? 0 then acc' else digitsRadix fuel' radix (n / radix) acc'
  end.

(** [n.toString(radix)] for an integer [n] and a radix from 2 to 36: a minus
    sign when negative, then the digits without leading zeros.  An integer
    below [2 ^ k] has at most [k] digits in any radix. *)
Definition toStringRadix (radix n : Z) : string :=
  if n =? 0 then "0"%string
  else if n <? 0
  then String "-" (digitsRadix (S (Z.to_nat (Z.log2 (- n)))) radix (- n) EmptyString)
  else digitsRadix (S (Z.to_nat (Z.log2 n))) radix n EmptyString.

(** [s.padStart(targetLength, c)] for a one-character filler *)
Definition padStart (targetLength : nat) (c : ascii) (s : string) : string :=
  (repeat (String c EmptyString) (targetLength - String.length s) ++ s)%string.

(** [String.fromCodePoint(n)] for a code point below 256 *)
Definition fromCodePoint (n : Z) : ascii := ascii_of_nat (Z.to_nat n).

(** [c.toLowerCase()] on a one-character ASCII string *)
Definition toLowerCase (c : ascii) : ascii :=
  let n := nat_of_ascii c in
  if (65 <=? n)%nat && (n <=? 90)%nat then ascii_of_nat (n + 32) else c.

(** [[a-z]] under the [i] flag, and [[a-z]]/[[A-Z]] without it *)
Definition isLower (c : ascii) : bool :=
  let n := nat_of_ascii c in (97 <=? n)%nat && (n <=? 122)%nat.
Definition isUpper (c : ascii) : bool :=
  let n := nat_of_ascii c in (65 <=? n)%nat && (n <=? 90)%nat.
Definition isLetter (c : ascii) : bool := isLower c || isUpper c.

(** Some character of a string satisfies [p]. *)
Fixpoint some (p : ascii -> bool) (s : string) : bool :=
  match s with
  | EmptyString => false
  | String c s' => p c || some p s'
  end.

(** The last character of a string *)
Fixpoint lastChar (s : string) : option ascii :=
  match s with
  | EmptyString => None
  | String c EmptyString => Some c
  | String _ s' => lastChar s'
  end.

End JS.

(** ** [NumberModule] *)

Module NumberModule.

Local Open Scope gen_scope.

Record IntOptions : Type := {
  int_min : option Q;
  int_max : option Q;
  int_multipleOf : option Q
}.

(** [options: number | { min?, max?, multipleOf? }] *)
Inductive IntArg : Type :=
| IntNumber (n : Q)
| IntObject (o : IntOptions).

(** [if (typeof options === 'number') options = { max: options }] *)
Definition int_normalize (options : IntArg) : IntOptions :=
  match options with
  | IntNumber n => {| int_min := None; int_max := Some n; int_multipleOf := None |}
  | IntObject o => o
  end.

(** [const { min = 0, max = Number.MAX_SAFE_INTEGER, multipleOf = 1 } = options] *)
Definition min_of (options : IntArg) : Q :=
  JS.default 0%Q (int_min (int_normalize options)).
Definition max_of (options : IntArg) : Q :=
  JS.default JS.MAX_SAFE_INTEGER (int_max (int_normalize options)).
Definition multipleOf_of (options : IntArg) : Q :=
  JS.default 1%Q (int_multipleOf (int_normalize options)).

(** [Math.ceil(min / multipleOf)] and [Math.floor(max / multipleOf)], the
    quotient being exact *)
Definition effectiveMin (min multipleOf : Q) : Z := Qceiling (min / multipleOf).
Definition effectiveMax (max multipleOf : Q) : Z := Qfloor (max / multipleOf).

(** The value returned is an integer ([Math.ceil] or [Math.floor] of
    something) times [multipleOf], which has passed [Number.isInteger]: the
    model returns it as a [Z], [Qfloor multipleOf] being [multipleOf] itself
    on that path. *)
Definition int (options : IntArg) : Gen Z :=
  let min := min_of options in
  let max := max_of options in
  let multipleOf := multipleOf_of options in
  if negb (JS.isInteger multipleOf) then throw MultipleOfNotInteger
  else if Qle_bool multipleOf 0 then throw MultipleOfNotPositive
  else
    let effectiveMin := effectiveMin min multipleOf in
    let effectiveMax := effectiveMax max multipleOf in
    if effectiveMin =? effectiveMax then ret (effectiveMin * Qfloor multipleOf)
    else if effectiveMax <? effectiveMin then
      if Qle_bool min max then throw (NoSuitableInteger min max)
      else throw (MaxNotGreaterThanMin min max)
    else
      real <- next ;;
      let delta := effectiveMax - effectiveMin + 1 in
      ret (Qfloor (real * inject_Z delta + inject_Z effectiveMin) * Qfloor multipleOf).

(** The three ways a call with a valid stride can end. *)
Inductive int_case (options : IntArg) (rz : Randomizer.t) : Prop :=
| int_collapse :
    effectiveMin (min_of options) (multipleOf_of options)
    = effectiveMax (max_of options) (multipleOf_of options) ->
    int options rz
    = (Returns (effectiveMin (min_of options) (multipleOf_of options)
                * Qfloor (multipleOf_of options)), rz) ->
    int_case options rz
| int_empty :
    (effectiveMax (max_of options) (multipleOf_of options)
     < effectiveMin (min_of options) (multipleOf_of options))%Z ->
    int options rz
    = (Throws (if Qle_bool (min_of options) (max_of options)
               then NoSuitableInteger (min_of options) (max_of options)
               else MaxNotGreaterThanMin (min_of options) (max_of options)), rz) ->
    int_case options rz
| int_draw :
    (effectiveMin (min_of options) (multipleOf_of options)
     < effectiveMax (max_of options) (multipleOf_of options))%Z ->
    int options rz
    = (Returns (Qfloor (Randomizer.peek rz
                        * inject_Z (effectiveMax (max_of options) (multipleOf_of options)
                                    - effectiveMin (min_of options) (multipleOf_of options)
                                    + 1)
                        + inject_Z (effectiveMin (min_of options) (multipleOf_of options)))%Q
                * Qfloor (multipleOf_of options)),
       Randomizer.advance rz) ->
    int_case options rz.


(** *** [float] *)

Record FloatOptions : Type := {
  float_min : option Q;
  float_max : option Q;
  float_fractionDigits : option Q;
  float_multipleOf : option Q
}.

Inductive FloatArg : Type :=
| FloatNumber (n : Q)
| FloatObject (o : FloatOptions).

Definition float_normalize (options : FloatArg) : FloatOptions :=
  match options with
  | FloatNumber n =>
      {| float_min := None; float_max := Some n;
         float_fractionDigits := None; float_multipleOf := None |}
  | FloatObject o => o
  end.

(** [min = 0], [max = 1] *)
Definition fmin_of (options : FloatArg) : Q :=
  JS.default 0%Q (float_min (float_normalize options)).
Definition fmax_of (options : FloatArg) : Q :=
  JS.default 1%Q (float_max (float_normalize options)).

(** [multipleOf = fractionDigits == null ? undefined : 10 ** -fractionDigits] *)
Definition fmultipleOf_of (options : FloatArg) : option Q :=
  match float_multipleOf (float_normalize options) with
  | Some m => Some m
  | None =>
      match float_fractionDigits (float_normalize options) with
      | None => None
      | Some fractionDigits => Some (JS.pow10 (- fractionDigits))
      end
  end.

(** [multipleOf < 1 && Number.isInteger(logPrecision) ? 10 ** -logPrecision : 1 / multipleOf] *)
Definition factor_of (multipleOf : Q) : Q :=
  match JS.log10 multipleOf with
  | Some logPrecision =>
      if JS.ltb multipleOf 1 then JS.pow10 (- inject_Z logPrecision)
      else (1 / multipleOf)%Q
  | None => (1 / multipleOf)%Q
  end.

Definition float (options : FloatArg) : Gen Q :=
  let min := fmin_of options in
  let max := fmax_of options in
  let fractionDigits := float_fractionDigits (float_normalize options) in
  let originalMultipleOf := float_multipleOf (float_normalize options) in
  let multipleOf := fmultipleOf_of options in
  if JS.ltb max min then throw (MaxNotGreaterThanMin min max)
  else
    _ <- match fractionDigits with
         | Some fractionDigits =>
             match originalMultipleOf with
             | Some _ => throw ConflictingOptions
             | None =>
                 if negb (JS.isInteger fractionDigits)
                 then throw FractionDigitsNotInteger
                 else if JS.ltb fractionDigits 0
                 then throw FractionDigitsNegative
                 else ret tt
             end
         | None => ret tt
         end ;;
    match multipleOf with
    | Some multipleOf =>
        if Qle_bool multipleOf 0 then throw MultipleOfNotPositive
        else
          let factor := factor_of multipleOf in
          int <- int (IntObject {| int_min := Some (min * factor)%Q;
                                   int_max := Some (max * factor)%Q;
                                   int_multipleOf := None |}) ;;
          ret (inject_Z int / factor)%Q
    | None =>
        real <- next ;;
        ret (real * (max - min) + min)%Q
    end.

(** *** [bigInt] *)

Record BigIntOptions : Type := {
  big_min : option Z;
  big_max : option Z;
  big_multipleOf : option Z
}.

(** [options: bigint | number | string | boolean | { min?, max?, multipleOf? }];
    every bound is taken after its coercion by [BigInt(...)]. *)
Inductive BigIntArg : Type :=
| BigIntValue (n : Z)
| BigIntObject (o : BigIntOptions).

Definition bigInt_normalize (options : BigIntArg) : BigIntOptions :=
  match options with
  | BigIntValue n => {| big_min := None; big_max := Some n; big_multipleOf := None |}
  | BigIntObject o => o
  end.

(** [BigInt(options.min ?? 0)], [BigInt(options.max ?? min + BigInt(999999999999999))],
    [BigInt(options.multipleOf ?? 1)] *)
Definition bigInt_min_of (options : BigIntArg) : Z :=
  JS.default 0 (big_min (bigInt_normalize options)).
Definition bigInt_max_of (options : BigIntArg) : Z :=
  JS.default (bigInt_min_of options + 999999999999999) (big_max (bigInt_normalize options)).
Definition bigInt_multipleOf_of (options : BigIntArg) : Z :=
  JS.default 1 (big_multipleOf (bigInt_normalize options)).

(** [min / multipleOf + (min % multipleOf > 0n ? 1n : 0n)]; bigint [/]
    truncates and [%] takes the sign of the dividend. *)
Definition bigInt_effectiveMin (min multipleOf : Z) : Z :=
  Z.quot min multipleOf + (if 0 <? Z.rem min multipleOf then 1 else 0).

(** [max / multipleOf - (max % multipleOf < 0n ? 1n : 0n)] *)
Definition bigInt_effectiveMax (max multipleOf : Z) : Z :=
  Z.quot max multipleOf - (if Z.rem max multipleOf <? 0 then 1 else 0).

Section WithStringModule.

(** [faker.string.numeric({ length, allowLeadingZeros })]: the string module
    is not part of the sources at hand; it is taken as a parameter that
    yields a string of decimal digits and the randomizer it leaves behind. *)
Variable string_numeric : nat -> bool -> Randomizer.t -> Decimal.uint * Randomizer.t.

Definition bigInt (options : BigIntArg) : Gen Z :=
  let min := bigInt_min_of options in
  let max := bigInt_max_of options in
  let multipleOf := bigInt_multipleOf_of options in
  if max <? min then throw (MaxNotLargerThanMin min max)
  else if multipleOf <=? 0 then throw MultipleOfNotPositive
  else
    let effectiveMin := bigInt_effectiveMin min multipleOf in
    let effectiveMax := bigInt_effectiveMax max multipleOf in
    if effectiveMin =? effectiveMax then ret (effectiveMin * multipleOf)
    else if effectiveMax <? effectiveMin then throw (NoSuitableBigint min max)
    else
      let delta := effectiveMax - effectiveMin + 1 in
      digits <- (fun rz =>
                   let '(digits, rz') :=
                     string_numeric (String.length (JS.toString delta)) true rz in
                   (Returns digits, rz')) ;;
      let offset := Z.rem (Z.of_uint digits) delta in
      ret ((effectiveMin + offset) * multipleOf).

End WithStringModule.

(** *** [romanNumeral] *)

Record RomanOptions : Type := {
  roman_min : option Q;
  roman_max : option Q
}.

Inductive RomanArg : Type :=
| RomanNumber (n : Q)
| RomanObject (o : RomanOptions).

Definition roman_normalize (options : RomanArg) : RomanOptions :=
  match options with
  | RomanNumber n => {| roman_min := None; roman_max := Some n |}
  | RomanObject o => o
  end.

Definition DEFAULT_MIN : Q := 1%Q.
Definition DEFAULT_MAX : Q := 3999%Q.

Definition lookup : list (string * Z) :=
  [ ("M", 1000); ("CM", 900); ("D", 500); ("CD", 400);
    ("C", 100); ("XC", 90); ("L", 50); ("XL", 40);
    ("X", 10); ("IX", 9); ("V", 5); ("IV", 4); ("I", 1) ]%string.

(** One iteration of [for (const [k, v] of lookup)]:
    [result += k.repeat(Math.floor(num / v)); num %= v]. *)
Definition step (state : string * Z) (entry : string * Z) : string * Z :=
  let '(result, num) := state in
  let '(k, v) := entry in
  ((result ++ JS.repeat k (Z.to_nat (num / v)))%string, Z.rem num v).

(** The loop over a table, from [result = ''] *)
Definition encode_with (table : list (string * Z)) (num : Z) : string :=
  fst (fold_left step table (EmptyString, num)).

Definition encode (num : Z) : string := encode_with lookup num.

Definition romanNumeral (options : RomanArg) : Gen string :=
  let min := JS.default DEFAULT_MIN (roman_min (roman_normalize options)) in
  let max := JS.default DEFAULT_MAX (roman_max (roman_normalize options)) in
  if JS.ltb min DEFAULT_MIN then throw (MinValueTooSmall min)
  else if JS.ltb DEFAULT_MAX max then throw (MaxValueTooLarge max)
  else
    num <- int (IntObject {| int_min := Some min; int_max := Some max;
                             int_multipleOf := None |}) ;;
    ret (encode num).

(** The encoding in the words of the specification: for each entry of the
    descending table in turn, subtract its value from the remainder and
    append its symbol for as long as the value still fits. *)
Fixpoint subtract_while (fuel : nat) (k : string) (v : Z) (state : string * Z)
  : string * Z :=
  match fuel with
  | O => state
  | S fuel' =>
      let '(result, remainder) := state in
      if v <=? remainder
      then subtract_while fuel' k v ((result ++ k)%string, remainder - v)
      else state
  end.

Definition greedy_with (table : list (string * Z)) (n : Z) : string :=
  fst (fold_left (fun state entry =>
                    subtract_while (Z.to_nat n) (fst entry) (snd entry) state)
                 table (EmptyString, n)).

Definition greedy (n : Z) : string := greedy_with lookup n.

(** *** [binary], [octal], [hex] *)

Record RadixOptions : Type := {
  radix_min : option Q;
  radix_max : option Q
}.

(** [options: number | { min?, max? }] *)
Inductive RadixArg : Type :=
| RadixNumber (n : Q)
| RadixObject (o : RadixOptions).

(** [if (typeof options === 'number') options = { max: options }] *)
Definition radix_normalize (options : RadixArg) : RadixOptions :=
  match options with
  | RadixNumber n => {| radix_min := None; radix_max := Some n |}
  | RadixObject o => o
  end.

(** [this.int({ max, min })] with [min = 0] and [max = defaultMax] by default *)
Definition radix_range (defaultMax : Q) (options : RadixArg) : IntArg :=
  IntObject {| int_min := Some (JS.default 0%Q (radix_min (radix_normalize options)));
               int_max := Some (JS.default defaultMax (radix_max (radix_normalize options)));
               int_multipleOf := None |}.

Definition binary (options : RadixArg) : Gen string :=
  n <- int (radix_range 1%Q options) ;;
  ret (JS.toStringRadix 2 n).

Definition octal (options : RadixArg) : Gen string :=
  n <- int (radix_range 7%Q options) ;;
  ret (JS.toStringRadix 8 n).

Definition hex (options : RadixArg) : Gen string :=
  n <- int (radix_range 15%Q options) ;;
  ret (JS.toStringRadix 16 n).

End NumberModule.

(** ** [InternetModule.ipv4] *)

Module InternetModule.

Local Open Scope gen_scope.

Inductive IPv4Network : Type :=
| Any | Loopback | PrivateA | PrivateB | PrivateC
| TestNet1 | TestNet2 | TestNet3 | LinkLocal | Multicast.

Definition ipv4Networks (network : IPv4Network) : string :=
  match network with
  | Any => "0.0.0.0/0"
  | Loopback => "127.0.0.0/8"
  | PrivateA => "10.0.0.0/8"
  | PrivateB => "172.16.0.0/12"
  | PrivateC => "192.168.0.0/16"
  | TestNet1 => "192.0.2.0/24"
  | TestNet2 => "198.51.100.0/24"
  | TestNet3 => "203.0.113.0/24"
  | LinkLocal => "169.254.0.0/16"
  | Multicast => "224.0.0.0/4"
  end%string.

Record Ipv4Options : Type := {
  cidrBlock : option string;
  network : option IPv4Network
}.

(** Regular-expression pieces, each applied to the rest of the input with the
    continuation [k] that matches what follows it. *)

(** [\d{1,n}] *)
Fixpoint digits_upto (n : nat) (k : string -> bool) (s : string) : bool :=
  match n, s with
  | S n', String c s' => JS.isDigit c && (digits_upto n' k s' || k s')
  | _, _ => false
  end.

(** a literal character *)
Definition literal (c : ascii) (k : string -> bool) (s : string) : bool :=
  match s with
  | String c' s' => Ascii.eqb c' c && k s'
  | EmptyString => false
  end.

(** [$] *)
Definition end_of_input (s : string) : bool :=
  match s with EmptyString => true | _ => false end.

(** [/^\d{1,3}\.\d{1,3}\.\d{1,3}\.\d{1,3}\/\d{1,2}$/.test(cidrBlock)] *)
Definition cidrPattern_test (cidrBlock : string) : bool :=
  digits_upto 3 (literal "." (
  digits_upto 3 (literal "." (
  digits_upto 3 (literal "." (
  digits_upto 3 (literal "/" (
  digits_upto 2 end_of_input)))))))) cidrBlock.

(** [const [ipText, subnet] = cidrBlock.split('/')] *)
Definition ipText_of (cidrBlock : string) : string :=
  nth 0 (JS.split "/" cidrBlock) EmptyString.
Definition subnet_of (cidrBlock : string) : string :=
  nth 1 (JS.split "/" cidrBlock) EmptyString.

(** [0xffffffff >>> Number.parseInt(subnet)] *)
Definition subnetMask_of (cidrBlock : string) : Z :=
  JS.ushr 4294967295 (JS.parseInt (subnet_of cidrBlock)).

(** [ipText.split('.').map(Number)] *)
Definition rawOctets_of (cidrBlock : string) : list Z :=
  map JS.Number (JS.split "." (ipText_of cidrBlock)).

(** [(rawIp1 << 24) | (rawIp2 << 16) | (rawIp3 << 8) | rawIp4] *)
Definition rawIp_of (cidrBlock : string) : Z :=
  let raw := rawOctets_of cidrBlock in
  JS.bor (JS.bor (JS.bor (JS.shl (nth 0 raw 0) 24) (JS.shl (nth 1 raw 0) 16))
                 (JS.shl (nth 2 raw 0) 8))
         (nth 3 raw 0).

(** [rawIp & ~subnetMask] *)
Definition networkIp_of (cidrBlock : string) : Z :=
  JS.band (rawIp_of cidrBlock) (JS.bnot (subnetMask_of cidrBlock)).

(** [[(ip >>> 24) & 0xff, (ip >>> 16) & 0xff, (ip >>> 8) & 0xff, ip & 0xff]] *)
Definition octets (ip : Z) : list Z :=
  [ JS.band (JS.ushr ip 24) 255; JS.band (JS.ushr ip 16) 255;
    JS.band (JS.ushr ip 8) 255; JS.band ip 255 ].

(** [[...].join('.')] *)
Definition dotted (bytes : list Z) : string :=
  JS.join "." (map JS.toString bytes).

(** [const { network = 'any', cidrBlock = ipv4Networks[network] } = options] *)
Definition cidrBlock_of (options : Ipv4Options) : string :=
  let network := JS.default Any (network options) in
  JS.default (ipv4Networks network) (cidrBlock options).

Definition ipv4 (options : Ipv4Options) : Gen string :=
  let cidrBlock := cidrBlock_of options in
  if negb (cidrPattern_test cidrBlock) then throw (InvalidCidrBlock cidrBlock)
  else
    let subnetMask := subnetMask_of cidrBlock in
    let networkIp := networkIp_of cidrBlock in
    hostOffset <- NumberModule.int (NumberModule.IntNumber (inject_Z subnetMask)) ;;
    let ip := JS.bor networkIp hostOffset in
    ret (dotted (octets ip)).

(** The 32-bit value of the address [a.b.c.d] *)
Definition address_value (bytes : list Z) : Z :=
  fold_left (fun acc b => acc * 256 + b) bytes 0.

Definition is_byte (b : Z) : bool := (0 <=? b) && (b <=? 255).

(** A valid CIDR string: the pattern, four octets in 0..255 and a prefix
    length in 0..32. *)
Definition valid_cidr (cidrBlock : string) : bool :=
  cidrPattern_test cidrBlock
  && forallb is_byte (rawOctets_of cidrBlock)
  && (JS.parseInt (subnet_of cidrBlock) <=? 32).

(** *** [port] *)

Definition port : Gen Z := NumberModule.int (NumberModule.IntNumber 65535).

(** *** [colorFromBase], [color] *)

(** [Math.floor((faker.number.int(256) + base) / 2).toString(16).padStart(2, '0')] *)
Definition colorFromBase (base : Q) : Gen string :=
  n <- NumberModule.int (NumberModule.IntNumber 256) ;;
  ret (JS.padStart 2 "0" (JS.toStringRadix 16 (Qfloor ((inject_Z n + base) / 2)))).

Record ColorOptions : Type := {
  redBase : option Q;
  greenBase : option Q;
  blueBase : option Q
}.

(** The call of [deprecated(...)] that opens the method writes a warning to
    the console; it takes no part in the value returned nor in the draws, and
    is left out. *)
Definition color (options : ColorOptions) : Gen string :=
  red <- colorFromBase (JS.default 0%Q (redBase options)) ;;
  green <- colorFromBase (JS.default 0%Q (greenBase options)) ;;
  blue <- colorFromBase (JS.default 0%Q (blueBase options)) ;;
  ret ("#" ++ red ++ green ++ blue)%string.

(** *** [mac] *)

(** [options: string | { separator? }] *)
Inductive MacArg : Type :=
| MacString (separator : string)
| MacObject (separator : option string).

Definition acceptableSeparators : list string := [":"; "-"; ""]%string.

(** [let { separator = ':' } = options] and the fallback for a separator that
    is not acceptable *)
Definition separator_of (options : MacArg) : string :=
  let separator :=
    match options with
    | MacString s => s
    | MacObject separator => JS.default ":"%string separator
    end in
  if negb (existsb (String.eqb separator) acceptableSeparators)
  then ":"%string else separator.

(** [for (i = ...; i < 12; i++) { mac += hex(15); if (i % 2 === 1 && i !== 11) mac += separator }],
    with [count] iterations left. *)
Fixpoint mac_loop (count : nat) (i : Z) (separator mac : string) : Gen string :=
  match count with
  | O => ret mac
  | S count' =>
      digit <- NumberModule.hex (NumberModule.RadixNumber 15) ;;
      let mac := (mac ++ digit)%string in
      let mac := if (Z.rem i 2 =? 1) && negb (i =? 11)
                 then (mac ++ separator)%string else mac in
      mac_loop count' (i + 1) separator mac
  end.

Definition mac (options : MacArg) : Gen string :=
  mac_loop 12 0 (separator_of options) EmptyString.

(** *** [isValidDomainWordSlug] *)

(** one character of a class *)
Definition class (p : ascii -> bool) (k : string -> bool) (s : string) : bool :=
  match s with
  | String c s' => p c && k s'
  | EmptyString => false
  end.

(** any number of characters of a class *)
Fixpoint star (p : ascii -> bool) (k : string -> bool) (s : string) : bool :=
  match s with
  | String c s' => (p c && star p k s') || k s
  | EmptyString => k s
  end.

Definition isLetterOrDash (c : ascii) : bool :=
  JS.isLetter c || Ascii.eqb c "-".

(** [/^[a-z][a-z-]*[a-z]$/i.exec(slug) !== null] *)
Definition isValidDomainWordSlug (slug : string) : bool :=
  class JS.isLetter (star isLetterOrDash (class JS.isLetter end_of_input)) slug.

(** *** [password] *)

(** A [RegExp] without the [g] and [y] flags, taken through its [test]
    method. *)
Definition RegExp : Type := string -> bool.

Definition isVowel (c : ascii) : bool :=
  JS.some (Ascii.eqb c) "aeiouAEIOU".

Definition isConsonant (c : ascii) : bool :=
  JS.some (Ascii.eqb c) "bcdfghjklmnpqrstvwxyzBCDFGHJKLMNPQRSTVWXYZ".

(** [/[aeiouAEIOU]$/] *)
Definition vowel : RegExp :=
  fun s => match JS.lastChar s with Some c => isVowel c | None => false end.

(** [/[bcdfghjklmnpqrstvwxyzBCDFGHJKLMNPQRSTVWXYZ]$/] *)
Definition consonant : RegExp :=
  fun s => match JS.lastChar s with Some c => isConsonant c | None => false end.

(** [\w] *)
Definition isWordChar (c : ascii) : bool :=
  JS.isLetter c || JS.isDigit c || Ascii.eqb c "_".

(** [/\w/] *)
Definition word : RegExp := JS.some isWordChar.

(** The recursive helper of [password].  Nothing in the source bounds the
    number of calls (a character that the pattern refuses is drawn again);
    the model counts them down from [fuel] and answers [None] when they run
    out. *)
Fixpoint _password (fuel : nat) (length : Q) (memorable : bool)
    (pattern : RegExp) (prefix : string) : Gen (option string) :=
  match fuel with
  | O => ret None
  | S fuel' =>
      if Qle_bool length (inject_Z (Z.of_nat (String.length prefix)))
      then ret (Some prefix)
      else
        let pattern :=
          if memorable then (if consonant prefix then vowel else consonant)
          else pattern in
        n <- NumberModule.int (NumberModule.IntNumber 94) ;;
        let n := n + 33 in
        let char := JS.fromCodePoint n in
        let char := if memorable then JS.toLowerCase char else char in
        if negb (pattern (String char EmptyString))
        then _password fuel' length memorable pattern prefix
        else _password fuel' length memorable pattern
                       (prefix ++ String char EmptyString)
  end.

Record PasswordOptions : Type := {
  pw_length : option Q;
  pw_memorable : option bool;
  pw_pattern : option RegExp;
  pw_prefix : option string
}.

(** [const { length = 15, memorable = false, pattern = /\w/, prefix = '' } = options] *)
Definition password (fuel : nat) (options : PasswordOptions) : Gen (option string) :=
  _password fuel
    (JS.default 15%Q (pw_length options))
    (JS.default false (pw_memorable options))
    (JS.default word (pw_pattern options))
    (JS.default EmptyString (pw_prefix options)).

End InternetModule.

(** ** Reading results back

    The decoders below are not part of the sources; properties of the
    encoders are stated against them. *)

Module Decode.

(** The position of a character in a string, counted from [i]. *)
Fixpoint index_from (i : Z) (c : ascii) (s : string) : option Z :=
  match s with
  | EmptyString => None
  | String c' s' => if Ascii.eqb c c' then Some i else index_from (i + 1) c s'
  end.

(** The value of a digit of [Number.prototype.toString(radix)] *)
Definition digitValue (c : ascii) : option Z := index_from 0 c JS.digitChars.

(** A digit of the radix *)
Definition isDigitOf (radix : Z) (c : ascii) : bool :=
  match digitValue c with
  | Some d => d <? radix
  | None => false
  end.

(** Every character of a string satisfies [p]. *)
Fixpoint all (p : ascii -> bool) (s : string) : bool :=
  match s with
  | EmptyString => true
  | String c s' => p c && all p s'
  end.

(** The two hexadecimal digits of a byte *)
Definition byteHex (b : Z) : string :=
  String (JS.digitChar (b / 16)) (String (JS.digitChar (b mod 16)) EmptyString).

(** The value of a Roman symbol *)
Definition romanValue (c : ascii) : Z :=
  if Ascii.eqb c "I" then 1
  else if Ascii.eqb c "V" then 5
  else if Ascii.eqb c "X" then 10
  else if Ascii.eqb c "L" then 50
  else if Ascii.eqb c "C" then 100
  else if Ascii.eqb c "D" then 500
  else if Ascii.eqb c "M" then 1000
  else 0.

Definition isRomanSymbol (c : ascii) : bool := 0 <? romanValue c.

(** The value of a Roman numeral: a symbol smaller than the one after it is
    subtracted, any other is added. *)
Fixpoint romanDecode (s : string) : Z :=
  match s with
  | EmptyString => 0
  | String c s' =>
      match s' with
      | EmptyString => romanValue c
      | String c' _ =>
          if romanValue c <? romanValue c'
          then romanDecode s' - romanValue c
          else romanDecode s' + romanValue c
      end
  end.

(** Some character occurs four times in a row. *)
Fixpoint four_in_a_row (s : string) : bool :=
  match s with
  | String a ((String b (String c (String d _))) as s') =>
      (Ascii.eqb a b && Ascii.eqb b c && Ascii.eqb c d) || four_in_a_row s'
  | _ => false
  end.

(** A code point from 33 to 127, the characters [password] draws from *)
Definition isCandidate (c : ascii) : bool :=
  (33 <=? nat_of_ascii c)%nat && (nat_of_ascii c <=? 127)%nat.

(** No two neighbours are both vowels or both consonants. *)
Fixpoint alternating (s : string) : bool :=
  match s with
  | String a ((String b _) as s') =>
      negb (InternetModule.isVowel a && InternetModule.isVowel b)
      && negb (InternetModule.isConsonant a && InternetModule.isConsonant b)
      && alternating s'
  | _ => true
  end.

(** The characters of [suffix] were appended one by one to [t], each one
    acceptable after what stood before it. *)
Fixpoint appended (accepts : string -> ascii -> bool) (t suffix : string) : bool :=
  match suffix with
  | EmptyString => true
  | String c rest =>
      accepts t c && appended accepts (t ++ String c EmptyString) rest
  end.

(** What [password] may append: a candidate character that the pattern
    accepts; when memorable, a candidate character, not upper case, that is a
    vowel after a consonant and a consonant after anything else. *)
Definition accepts_plain (pattern : InternetModule.RegExp) (t : string) (c : ascii)
  : bool :=
  isCandidate c && pattern (String c EmptyString).

Definition accepts_memorable (t : string) (c : ascii) : bool :=
  isCandidate c && negb (JS.isUpper c)
  && (if InternetModule.consonant t then InternetModule.isVowel c
      else InternetModule.isConsonant c).

(** Between one and [n] decimal digits *)
Definition isDigits (n : nat) (s : string) : bool :=
  (1 <=? String.length s)%nat && (String.length s <=? n)%nat && all JS.isDigit s.

(** The text [d1.d2.d3.d4/p] *)
Definition cidr_text (d1 d2 d3 d4 p : string) : string :=
  (d1 ++ "." ++ d2 ++ "." ++ d3 ++ "." ++ d4 ++ "/" ++ p)%string.

(** The address range each named network stands for, as its declaration
    documents it ([10.0.0.0/8], [172.16.0.0/12], ...). *)
Definition in_network (network : InternetModule.IPv4Network) (bytes : list Z) : bool :=
  match bytes with
  | [a; b; c; d] =>
      match network with
      | InternetModule.Any => true
      | InternetModule.Loopback => a =? 127
      | InternetModule.PrivateA => a =? 10
      | InternetModule.PrivateB => (a =? 172) && (16 <=? b) && (b <=? 31)
      | InternetModule.PrivateC => (a =? 192) && (b =? 168)
      | InternetModule.TestNet1 => (a =? 192) && (b =? 0) && (c =? 2)
      | InternetModule.TestNet2 => (a =? 198) && (b =? 51) && (c =? 100)
      | InternetModule.TestNet3 => (a =? 203) && (b =? 0) && (c =? 113)
      | InternetModule.LinkLocal => (a =? 169) && (b =? 254)
      | InternetModule.Multicast => (224 <=? a) && (a <=? 239)
      end
  | _ => false
  end.

End Decode.

(** ** [int] and [float] on binary64 numbers

    The same two methods once more, this time with a JavaScript [number] as
    the engine has it: an IEEE-754 binary64 value, Rocq's primitive [float],
    whose [+], [-], [*], [/] and comparisons round and treat [NaN], the
    infinities and the signed zeros as the standard says.  Control flow and
    order of the checks are those of [NumberModule] above; only the
    arithmetic differs.  Claims that depend on what rounding does are
    settled here. *)

Module Binary64.

Import PrimFloat SpecFloat FloatOps.
Local Open Scope float_scope.

(** A JavaScript [number] *)
Definition number : Type := PrimFloat.float.

(** *** Errors, randomizer and monad *)

Inductive FakerError : Type :=
| MultipleOfNotInteger
  (* multipleOf should be an integer. *)
| MultipleOfNotPositive
  (* multipleOf should be greater than 0. *)
| NoSuitableInteger (min max : number)
  (* No suitable integer value between ${min} and ${max} found. *)
| MaxNotGreaterThanMin (min max : number)
  (* Max ${max} should be greater than min ${min}. *)
| ConflictingOptions
  (* multipleOf and fractionDigits cannot be set at the same time. *)
| FractionDigitsNotInteger
  (* fractionDigits should be an integer. *)
| FractionDigitsNegative
  (* fractionDigits should be greater than or equal to 0. *).

Inductive Outcome (A : Type) : Type :=
| Returns (a : A)
| Throws (e : FakerError).

Arguments Returns {A} a.
Arguments Throws {A} e.

Module Randomizer.

(** Modelled from the spec: the randomizer ([faker._randomizer]) is not part
    of the sources at hand.  It is "a stateful object producing a
    deterministic sequence of reals in [0,1)"; here each real is a binary64
    number. *)
Record t : Type := mk { draws : nat -> number; position : nat }.

(** Every draw is a number in [0,1). *)
Definition valid (rz : t) : Prop :=
  forall n, (0 <=? draws rz n) = true /\ (draws rz n <? 1) = true.

Definition advance (rz : t) : t :=
  {| draws := draws rz; position := S (position rz) |}.

Definition peek (rz : t) : number := draws rz (position rz).

End Randomizer.

Definition Gen (A : Type) : Type := Randomizer.t -> Outcome A * Randomizer.t.

Definition ret {A} (a : A) : Gen A := fun rz => (Returns a, rz).

Definition throw {A} (e : FakerError) : Gen A := fun rz => (Throws e, rz).

Definition bind {A B} (m : Gen A) (k : A -> Gen B) : Gen B :=
  fun rz =>
    match m rz with
    | (Returns a, rz') => k a rz'
    | (Throws e, rz') => (Throws e, rz')
    end.

(** [randomizer.next()] *)
Definition next : Gen number :=
  fun rz => (Returns (Randomizer.peek rz), Randomizer.advance rz).

Declare Scope gen64_scope.
Delimit Scope gen64_scope with gen64.
Notation "x <- m ;; k" := (bind m (fun x => k))
  (at level 61, m at next level, right associativity) : gen64_scope.

(** *** [Math.floor], [Math.ceil], [Number.isInteger] *)

(** [Number.MAX_SAFE_INTEGER] *)
Definition MAX_SAFE_INTEGER : number := 9007199254740991.

(** [Math.floor(x)]: [NaN], the infinities and the zeros are returned as
    they are.  A finite [x] is [(-1)^s * m * 2^e]; with [e >= 0] it is an
    integer already, otherwise the greatest integer not above it is below
    [2^53] in magnitude and is a binary64 number exactly.  The sign of a zero
    result is that of [x]. *)
Definition floor (x : number) : number :=
  match Prim2SF x with
  | S754_finite s m e =>
      if (0 <=? e)%Z then x
      else SF2Prim (binary_normalize prec emax
                      (cond_Zopp s (Zpos m) / 2 ^ (- e))%Z 0 s)
  | _ => x
  end.

(** [Math.ceil(x)], likewise with the least integer not below [x]. *)
Definition ceil (x : number) : number :=
  match Prim2SF x with
  | S754_finite s m e =>
      if (0 <=? e)%Z then x
      else SF2Prim (binary_normalize prec emax
                      (- (- cond_Zopp s (Zpos m) / 2 ^ (- e)))%Z 0 s)
  | _ => x
  end.

(** [Number.isInteger(x)]: a finite number that is its own floor. *)
Definition isInteger (x : number) : bool := is_finite x && (floor x =? x).

(** [x ?? d] and destructuring defaults *)
Definition default {A} (d : A) (x : option A) : A :=
  match x with Some a => a | None => d end.

(** *** [int] *)

Local Open Scope gen64_scope.

Record IntOptions : Type := {
  int_min : option number;
  int_max : option number;
  int_multipleOf : option number
}.

(** [options: number | { min?, max?, multipleOf? }] *)
Inductive IntArg : Type :=
| IntNumber (n : number)
| IntObject (o : IntOptions).

(** [if (typeof options === 'number') options = { max: options }] *)
Definition int_normalize (options : IntArg) : IntOptions :=
  match options with
  | IntNumber n => {| int_min := None; int_max := Some n; int_multipleOf := None |}
  | IntObject o => o
  end.

(** [const { min = 0, max = Number.MAX_SAFE_INTEGER, multipleOf = 1 } = options] *)
Definition min_of (options : IntArg) : number :=
  default 0 (int_min (int_normalize options)).
Definition max_of (options : IntArg) : number :=
  default MAX_SAFE_INTEGER (int_max (int_normalize options)).
Definition multipleOf_of (options : IntArg) : number :=
  default 1 (int_multipleOf (int_normalize options)).

(** [Math.ceil(min / multipleOf)] and [Math.floor(max / multipleOf)] *)
Definition effectiveMin (min multipleOf : number) : number := ceil (min / multipleOf).
Definition effectiveMax (max multipleOf : number) : number := floor (max / multipleOf).

Definition int (options : IntArg) : Gen number :=
  let min := min_of options in
  let max := max_of options in
  let multipleOf := multipleOf_of options in
  if negb (isInteger multipleOf) then throw MultipleOfNotInteger
  else if multipleOf <=? 0 then throw MultipleOfNotPositive
  else
    let effectiveMin := effectiveMin min multipleOf in
    let effectiveMax := effectiveMax max multipleOf in
    if effectiveMin =? effectiveMax then ret (effectiveMin * multipleOf)
    else if effectiveMax <? effectiveMin then
      if min <=? max then throw (NoSuitableInteger min max)
      else throw (MaxNotGreaterThanMin min max)
    else
      real <- next ;;
      let delta := effectiveMax - effectiveMin + 1 in
      ret (floor (real * delta + effectiveMin) * multipleOf).

(** *** [float] *)

Record FloatOptions : Type := {
  float_min : option number;
  float_max : option number;
  float_fractionDigits : option number;
  float_multipleOf : option number
}.

Inductive FloatArg : Type :=
| FloatNumber (n : number)
| FloatObject (o : FloatOptions).

Definition float_normalize (options : FloatArg) : FloatOptions :=
  match options with
  | FloatNumber n =>
      {| float_min := None; float_max := Some n;
         float_fractionDigits := None; float_multipleOf := None |}
  | FloatObject o => o
  end.

(** [min = 0], [max = 1] *)
Definition fmin_of (options : FloatArg) : number :=
  default 0 (float_min (float_normalize options)).
Definition fmax_of (options : FloatArg) : number :=
  default 1 (float_max (float_normalize options)).

Section WithMath.

(** [10 ** e] and [Math.log10(x)].  ECMAScript leaves both to the engine
    ("an implementation-approximated Number value"), so they are parameters,
    and what is proved holds whatever they return. *)
Variable pow10 : number -> number.
Variable log10 : number -> number.

(** [multipleOf = fractionDigits == null ? undefined : 10 ** -fractionDigits] *)
Definition fmultipleOf_of (options : FloatArg) : option number :=
  match float_multipleOf (float_normalize options) with
  | Some m => Some m
  | None =>
      match float_fractionDigits (float_normalize options) with
      | None => None
      | Some fractionDigits => Some (pow10 (- fractionDigits))
      end
  end.

(** [multipleOf < 1 && Number.isInteger(logPrecision) ? 10 ** -logPrecision : 1 / multipleOf] *)
Definition factor_of (multipleOf : number) : number :=
  let logPrecision := log10 multipleOf in
  if (multipleOf <? 1) && isInteger logPrecision
  then pow10 (- logPrecision)
  else 1 / multipleOf.

Definition float (options : FloatArg) : Gen number :=
  let min := fmin_of options in
  let max := fmax_of options in
  let fractionDigits := float_fractionDigits (float_normalize options) in
  let originalMultipleOf := float_multipleOf (float_normalize options) in
  let multipleOf := fmultipleOf_of options in
  if max <? min then throw (MaxNotGreaterThanMin min max)
  else
    _ <- match fractionDigits with
         | Some fractionDigits =>
             match originalMultipleOf with
             | Some _ => throw ConflictingOptions
             | None =>
                 if negb (isInteger fractionDigits)
                 then throw FractionDigitsNotInteger
                 else if fractionDigits <? 0
                 then throw FractionDigitsNegative
                 else ret tt
             end
         | None => ret tt
         end ;;
    match multipleOf with
    | Some multipleOf =>
        if multipleOf <=? 0 then throw MultipleOfNotPositive
        else
          let factor := factor_of multipleOf in
          int <- int (IntObject {| int_min := Some (min * factor);
                                   int_max := Some (max * factor);
                                   int_multipleOf := None |}) ;;
          ret (int / factor)
    | None =>
        real <- next ;;
        ret (real * (max - min) + min)
    end.

End WithMath.

(** *** Sample inputs *)

(** The last number below 1, [1 - 2^-53] (JavaScript prints it as
    [0.9999999999999999]). *)
Definition last_below_one : number := 0x1.fffffffffffffp-1.

(** A randomizer whose every draw is [r], at the start of its sequence. *)
Definition constant_randomizer (r : number) : Randomizer.t :=
  Randomizer.mk (fun _ => r) O.

Definition rz_last : Randomizer.t := constant_randomizer last_below_one.
Definition rz_half : Randomizer.t := constant_randomizer 0.5.

(** [int({ min: 1, max: 2 })] *)
Definition one_two : IntArg :=
  IntObject {| int_min := Some 1; int_max := Some 2; int_multipleOf := None |}.

(** [int({ min: 10, max: 20 })] *)
Definition ten_twenty : IntArg :=
  IntObject {| int_min := Some 10; int_max := Some 20; int_multipleOf := None |}.

(** [float({ min: 20, max: 30 })] *)
Definition float_twenty_thirty : FloatArg :=
  FloatObject {| float_min := Some 20; float_max := Some 30;
                 float_fractionDigits := None; float_multipleOf := None |}.

(** [float({ min: 1, max: 1 })] *)
Definition float_one_one : FloatArg :=
  FloatObject {| float_min := Some 1; float_max := Some 1;
                 float_fractionDigits := None; float_multipleOf := None |}.

(** The numbers [0.01], [0.1], [0.11], [0.19] and [0.57] of a JavaScript
    source text: the binary64 number nearest to each. *)
Definition hundredth : number := 0x1.47ae147ae147bp-7.
Definition tenth : number := 0x1.999999999999ap-4.
Definition eleven_hundredths : number := 0x1.c28f5c28f5c29p-4.
Definition nineteen_hundredths : number := 0x1.851eb851eb852p-3.
Definition fifty_seven_hundredths : number := 0x1.23d70a3d70a3dp-1.

(** [10 ** e] and [Math.log10(x)] at the points the examples visit, with the
    values V8 gives there, and [NaN] elsewhere. *)
Definition pow10_at_samples (e : number) : number :=
  if e =? 2 then 100
  else if e =? 1 then 10
  else if e =? -1 then tenth
  else if e =? -2 then hundredth
  else nan.
Definition log10_at_samples (x : number) : number :=
  if x =? tenth then -1
  else if x =? hundredth then -2
  else nan.

(** [float({ min: 0.11, max: 0.19, fractionDigits: 1 })] *)
Definition float_between_tenths : FloatArg :=
  FloatObject {| float_min := Some eleven_hundredths;
                 float_max := Some nineteen_hundredths;
                 float_fractionDigits := Some 1; float_multipleOf := None |}.

(** [float({ min: 0.57, max: 0.57, fractionDigits: 2 })] *)
Definition float_point_57 : FloatArg :=
  FloatObject {| float_min := Some fifty_seven_hundredths;
                 float_max := Some fifty_seven_hundredths;
                 float_fractionDigits := Some 2; float_multipleOf := None |}.

(** [float({ min: 0.1, max: 0.1, fractionDigits: 1 })] *)
Definition float_point_1 : FloatArg :=
  FloatObject {| float_min := Some tenth; float_max := Some tenth;
                 float_fractionDigits := Some 1; float_multipleOf := None |}.

End Binary64.

(** ** Sample inputs *)

Module Samples.

Import NumberModule.

(** A randomizer whose every draw is [q], at the start of its sequence. *)
Definition constant_randomizer (q : Q) : Randomizer.t :=
  Randomizer.mk (fun _ => q) O.

Definition rz_half : Randomizer.t := constant_randomizer (1 # 2).

(** [{ min: 10, max: 100, multipleOf: 10 }] *)
Definition tens : IntArg :=
  IntObject {| int_min := Some 10%Q; int_max := Some 100%Q;
               int_multipleOf := Some 10%Q |}.


(** [{ min: 1, max: 1, multipleOf: 10 }] *)
Definition one_one_by_ten : IntArg :=
  IntObject {| int_min := Some 1%Q; int_max := Some 1%Q;
               int_multipleOf := Some 10%Q |}.

(** [{ min: 10, max: 1 }] *)
Definition ten_one : IntArg :=
  IntObject {| int_min := Some 10%Q; int_max := Some 1%Q; int_multipleOf := None |}.

(** [float({ min: 20, max: 30 })] *)
Definition float_twenty_thirty : FloatArg :=
  FloatObject {| float_min := Some 20%Q; float_max := Some 30%Q;
                 float_fractionDigits := None; float_multipleOf := None |}.

(** [float({ fractionDigits: 1, multipleOf: 0.1 })] *)
Definition float_both : FloatArg :=
  FloatObject {| float_min := None; float_max := None;
                 float_fractionDigits := Some 1%Q;
                 float_multipleOf := Some (1 # 10)%Q |}.

(** [float({ min: 5, max: 1, fractionDigits: 1, multipleOf: 0.1 })] *)
Definition float_both_reversed : FloatArg :=
  FloatObject {| float_min := Some 5%Q; float_max := Some 1%Q;
                 float_fractionDigits := Some 1%Q;
                 float_multipleOf := Some (1 # 10)%Q |}.

(** [float({ min: 0.11, max: 0.19, fractionDigits: 1 })] *)
Definition float_between_tenths : FloatArg :=
  FloatObject {| float_min := Some (11 # 100)%Q; float_max := Some (19 # 100)%Q;
                 float_fractionDigits := Some 1%Q; float_multipleOf := None |}.

(** [bigInt({ min: -25n, max: 37n, multipleOf: 10n })] *)
Definition big_uneven : BigIntArg :=
  BigIntObject {| big_min := Some (-25)%Z; big_max := Some 37%Z;
                  big_multipleOf := Some 10%Z |}.

(** A digit-string generator that answers ["7...7"] of the length asked for
    and draws nothing. *)
Definition sevens (length : nat) (allowLeadingZeros : bool) (rz : Randomizer.t)
  : Decimal.uint * Randomizer.t :=
  (Nat.iter length Decimal.D7 Decimal.Nil, rz).

(** [romanNumeral({ min: n, max: n })] *)
Definition roman_exactly (n : Z) : RomanArg :=
  RomanObject {| roman_min := Some (inject_Z n); roman_max := Some (inject_Z n) |}.

(** [ipv4({ network: 'private-a' })] *)
Definition private_a : InternetModule.Ipv4Options :=
  {| InternetModule.cidrBlock := None;
     InternetModule.network := Some InternetModule.PrivateA |}.

(** [ipv4({ cidrBlock })] *)
Definition in_block (cidrBlock : string) : InternetModule.Ipv4Options :=
  {| InternetModule.cidrBlock := Some cidrBlock; InternetModule.network := None |}.

(** The prefix lengths 33 to 99 *)
Definition long_prefixes : list Z := map Z.of_nat (seq 33 67).

(** [bigInt({ min: 10n, max: 20n, multipleOf: 7n })] *)
Definition big_single : BigIntArg :=
  BigIntObject {| big_min := Some 10%Z; big_max := Some 20%Z;
                  big_multipleOf := Some 7%Z |}.

(** [color({ redBase: 100, greenBase: 100, blueBase: 100 })] *)
Definition warm_grey : InternetModule.ColorOptions :=
  {| InternetModule.redBase := Some 100%Q;
     InternetModule.greenBase := Some 100%Q;
     InternetModule.blueBase := Some 100%Q |}.

(** The draw that [int(94)] turns into 65, the letter ['b'] once 33 is added *)
Definition rz_letter_b : Randomizer.t := constant_randomizer (65 # 95).

(** [password({ length: 3 })] *)
Definition pw_three : InternetModule.PasswordOptions :=
  {| InternetModule.pw_length := Some 3%Q; InternetModule.pw_memorable := None;
     InternetModule.pw_pattern := None; InternetModule.pw_prefix := None |}.

(** [password({ length: 4, memorable: true })] *)
Definition pw_memorable_four : InternetModule.PasswordOptions :=
  {| InternetModule.pw_length := Some 4%Q; InternetModule.pw_memorable := Some true;
     InternetModule.pw_pattern := None; InternetModule.pw_prefix := None |}.

(** A randomizer that draws the letters b, a, d, e, f, i, ... in turn *)
Definition rz_letters : Randomizer.t :=
  Randomizer.mk (fun n => nth n [65 # 95; 64 # 95; 67 # 95; 68 # 95] (69 # 95))%Q O.

(** [password({ length: 3, pattern: / / })]: only the space is accepted *)
Definition pw_spaces : InternetModule.PasswordOptions :=
  {| InternetModule.pw_length := Some 3%Q; InternetModule.pw_memorable := None;
     InternetModule.pw_pattern := Some (JS.some (Ascii.eqb " "));
     InternetModule.pw_prefix := None |}.


End Samples.

(** * Facts *)

(** ** Numbers *)

Module JSFacts.

Local Open Scope Q_scope.

Lemma isInteger_inject_Z (z : Z) : JS.isInteger (inject_Z z) = true.
Proof.
  unfold JS.isInteger; simpl. rewrite Z.mod_1_r. reflexivity.
Qed.

Lemma ltb_true (a b : Q) : JS.ltb a b = true <-> a < b.
Proof.
  unfold JS.ltb. rewrite negb_true_iff.
  split; intros H.
  - apply Qnot_le_lt. intros C. apply Qle_bool_iff in C. congruence.
  - destruct (Qle_bool b a) eqn:E; auto.
    apply Qle_bool_iff in E. exfalso. apply (Qlt_not_le _ _ H E).
Qed.

Lemma ltb_false (a b : Q) : JS.ltb a b = false <-> b <= a.
Proof.
  unfold JS.ltb. rewrite negb_false_iff. apply Qle_bool_iff.
Qed.

Lemma Qle_bool_false (a b : Q) : Qle_bool a b = false <-> b < a.
Proof.
  rewrite <- ltb_true. unfold JS.ltb. rewrite negb_true_iff. tauto.
Qed.

(** [j <= x] for an integer [j] is [j <= floor x]. *)
Lemma floor_ge (j : Z) (x : Q) : inject_Z j <= x <-> (j <= Qfloor x)%Z.
Proof.
  split; intros H.
  - rewrite <- (Qfloor_Z j). apply Qfloor_resp_le, H.
  - apply Qle_trans with (inject_Z (Qfloor x)).
    + rewrite <- Zle_Qle. exact H.
    + apply Qfloor_le.
Qed.

End JSFacts.

(** ** [int] *)

Module IntFacts.

Import NumberModule JSFacts.
Local Open Scope Q_scope.

Lemma int_cases (options : IntArg) (rz : Randomizer.t) :
  JS.isInteger (multipleOf_of options) = true ->
  0 < multipleOf_of options ->
  int_case options rz.
Proof.
  intros Hint Hpos.
  assert (Hle : Qle_bool (multipleOf_of options) 0 = false)
    by (apply Qle_bool_false; exact Hpos).
  destruct (Z.compare_spec (effectiveMin (min_of options) (multipleOf_of options))
                           (effectiveMax (max_of options) (multipleOf_of options)))
    as [E | L | G].
  - apply int_collapse; [exact E|].
    unfold int. rewrite Hint, Hle. simpl.
    apply Z.eqb_eq in E. rewrite E. reflexivity.
  - apply int_draw; [exact L|].
    unfold int. rewrite Hint, Hle. simpl.
    replace (_ =? _)%Z with false by (symmetry; apply Z.eqb_neq; lia).
    replace (_ <? _)%Z with false by (symmetry; apply Z.ltb_ge; lia).
    reflexivity.
  - apply int_empty; [exact G|].
    unfold int. rewrite Hint, Hle. simpl.
    replace (_ =? _)%Z with false by (symmetry; apply Z.eqb_neq; lia).
    replace (_ <? _)%Z with true by (symmetry; apply Z.ltb_lt; lia).
    destruct (Qle_bool (min_of options) (max_of options)); reflexivity.
Qed.

(** The scaled draw lands on the lattice. *)
Lemma scaled_draw_between (r : Q) (lo hi : Z) :
  0 <= r -> r < 1 -> (lo < hi)%Z ->
  (lo <= Qfloor (r * inject_Z (hi - lo + 1) + inject_Z lo) <= hi)%Z.
Proof.
  intros H0 H1 Hlt.
  assert (Hd : 0 < inject_Z (hi - lo + 1))
    by (change 0 with (inject_Z 0); rewrite <- Zlt_Qlt; lia).
  split.
  - apply floor_ge.
    assert (0 <= r * inject_Z (hi - lo + 1)) by (apply Qmult_le_0_compat; lra).
    lra.
  - assert (Hlt' : r * inject_Z (hi - lo + 1) + inject_Z lo < inject_Z (hi + 1)).
    { replace (hi + 1)%Z with ((hi - lo + 1) + lo)%Z by lia.
      rewrite (inject_Z_plus (hi - lo + 1) lo).
      assert (r * inject_Z (hi - lo + 1) < 1 * inject_Z (hi - lo + 1))
        by (apply Qmult_lt_compat_r; assumption).
      lra. }
    assert (Hfl : inject_Z (Qfloor (r * inject_Z (hi - lo + 1) + inject_Z lo))
                  < inject_Z (hi + 1)).
    { eapply Qle_lt_trans; [apply Qfloor_le | exact Hlt']. }
    rewrite <- Zlt_Qlt in Hfl. lia.
Qed.

Lemma effective_bounds_of_integer (n : Z) :
  effectiveMin (inject_Z n) 1 = n /\ effectiveMax (inject_Z n) 1 = n.
Proof.
  unfold effectiveMin, effectiveMax.
  assert (E : inject_Z n / 1 == inject_Z n) by (field; discriminate).
  rewrite E. split; [apply Qceiling_Z | apply Qfloor_Z].
Qed.

End IntFacts.

(** ** Claims about [int] *)

Module IntClaims.

Import NumberModule JSFacts IntFacts Samples.
Local Open Scope Q_scope.

Lemma constant_randomizer_valid (q : Q) :
  0 <= q -> q < 1 -> Randomizer.valid (constant_randomizer q).
Proof.
  intros H0 H1 n. simpl. split; assumption.
Qed.

Lemma rz_half_valid : Randomizer.valid rz_half.
Proof.
  apply constant_randomizer_valid; [discriminate | reflexivity].
Qed.





End IntClaims.

(** ** [float] *)

Module FloatFacts.

Import NumberModule JSFacts IntFacts.
Local Open Scope Q_scope.

Lemma find_pow10_complete (fuel : nat) :
  forall k0 k,
    (0 <= k0 <= k)%Z -> (Z.to_nat (k - k0) <= fuel)%nat ->
    JS.find_pow10 fuel k0 (10 ^ k0) (10 ^ k) = Some k.
Proof.
  induction fuel as [|fuel IH]; intros k0 k Hk Hfuel.
  - assert (k0 = k) by lia. subst k0. simpl. rewrite Z.eqb_refl. reflexivity.
  - cbn [JS.find_pow10].
    destruct (Z.eqb_spec (10 ^ k0) (10 ^ k)) as [E|E].
    + apply Z.pow_inj_r in E; try lia. congruence.
    + assert (Hlt : (k0 < k)%Z).
      { destruct (Z.eq_dec k0 k) as [->|]; [congruence | lia]. }
      assert (Hp : (10 ^ k0 < 10 ^ k)%Z) by (apply Z.pow_lt_mono_r; lia).
      replace (10 ^ k <? 10 ^ k0)%Z with false by (symmetry; apply Z.ltb_ge; lia).
      replace (10 ^ k0 * 10)%Z with (10 ^ (k0 + 1))%Z
        by (rewrite Z.pow_add_r by lia; reflexivity).
      apply IH; lia.
Qed.

Lemma log2_pow10_ge (k : Z) : (0 <= k)%Z -> (k <= Z.log2 (10 ^ k))%Z.
Proof.
  intros Hk. rewrite <- (Z.log2_pow2 k Hk) at 1.
  apply Z.log2_le_mono, Z.pow_le_mono_l. lia.
Qed.

(** ... and answers whenever the argument is a power of ten. *)
Lemma log10_complete (x : Q) (k : Z) :
  x == Qpower 10 k -> JS.log10 x = Some k.
Proof.
  intros Hx. unfold JS.log10.
  destruct (Z.le_gt_cases 0 k) as [Hk|Hk].
  - assert (R : Qred x = (10 ^ k # 1)).
    { rewrite (Qred_complete x (inject_Z (10 ^ k))).
      - apply Qred_identity. apply Z.gcd_1_r.
      - rewrite Hx. change 10 with (inject_Z 10).
        symmetry. apply Zpower_Qpower. exact Hk. }
    rewrite R. cbn [Qnum Qden]. rewrite Z.eqb_refl.
    apply (find_pow10_complete _ 0 k); [lia|].
    pose proof (log2_pow10_ge k Hk). lia.
  - set (j := (- k)%Z).
    assert (Hj : (0 < j)%Z) by (unfold j; lia).
    assert (Hpow : (1 < 10 ^ j)%Z).
    { change 1%Z with (10 ^ 0)%Z. apply Z.pow_lt_mono_r; lia. }
    assert (R : Qred x = (1 # Z.to_pos (10 ^ j))).
    { rewrite (Qred_complete x (1 # Z.to_pos (10 ^ j))).
      - apply Qred_identity. apply Z.gcd_1_l.
      - rewrite Hx. replace k with (- j)%Z by (unfold j; lia).
        rewrite Qpower_opp. change 10 with (inject_Z 10).
        rewrite <- Zpower_Qpower by lia.
        unfold Qeq, Qinv, inject_Z.
        destruct (10 ^ j)%Z eqn:P; try lia. reflexivity. }
    rewrite R. cbn [Qnum Qden].
    rewrite Z2Pos.id by lia.
    replace (10 ^ j =? 1)%Z with false by (symmetry; apply Z.eqb_neq; lia).
    rewrite Z.eqb_refl.
    rewrite (find_pow10_complete _ 0 j); [|lia|].
    + cbn [option_map]. f_equal. unfold j. lia.
    + pose proof (log2_pow10_ge j ltac:(lia)). lia.
Qed.

End FloatFacts.

(** ** Claims about [float] *)

Module FloatClaims.

Import NumberModule JSFacts IntFacts FloatFacts Samples.
Local Open Scope Q_scope.

(** Both [multipleOf] and [fractionDigits] set on a reversed range: the range
    check comes first. *)
Lemma float_conflict_after_range_check :
  float_multipleOf (float_normalize float_both_reversed) = Some (1 # 10)
  /\ float_fractionDigits (float_normalize float_both_reversed) = Some 1
  /\ fst (float float_both_reversed rz_half) = Throws (MaxNotGreaterThanMin 5 1)
  /\ fst (float float_both_reversed rz_half) <> Throws ConflictingOptions.
Proof.
  repeat split. discriminate.
Qed.

(** C7, amended.  When both [multipleOf] and [fractionDigits] are set and
    [max >= min], [float] throws "multipleOf and fractionDigits cannot be set
    at the same time" and draws nothing.  (With [max < min] the range check,
    which comes first, throws instead.) *)
Theorem float_conflicting_options
  (options : FloatArg) (multipleOf fractionDigits : Q) (rz : Randomizer.t) :
  float_multipleOf (float_normalize options) = Some multipleOf ->
  float_fractionDigits (float_normalize options) = Some fractionDigits ->
  fmin_of options <= fmax_of options ->
  float options rz = (Throws ConflictingOptions, rz).
Proof.
  intros Hm Hd Hle.
  unfold float. rewrite Hm, Hd.
  replace (JS.ltb (fmax_of options) (fmin_of options)) with false
    by (symmetry; apply ltb_false; exact Hle).
  reflexivity.
Qed.

Lemma float_conflicting_options_witness :
  float float_both rz_half = (Throws ConflictingOptions, rz_half).
Proof.
  apply (float_conflicting_options float_both (1 # 10) 1 rz_half).
  - reflexivity.
  - reflexivity.
  - discriminate.
Defined.

End FloatClaims.

(** ** Claims that turn on binary64 rounding *)

Module Binary64Claims.

Import PrimFloat SpecFloat FloatOps FloatAxioms Binary64.
Local Open Scope float_scope.




(** What [int] does when the two effective bounds coincide. *)
Lemma int_collapsed_range (options : IntArg) (rz : Randomizer.t) :
  isInteger (multipleOf_of options) = true ->
  (multipleOf_of options <=? 0) = false ->
  (effectiveMin (min_of options) (multipleOf_of options)
   =? effectiveMax (max_of options) (multipleOf_of options)) = true ->
  int options rz
  = (Returns (effectiveMin (min_of options) (multipleOf_of options)
              * multipleOf_of options), rz).
Proof.
  intros Hint Hpos E. unfold int. rewrite Hint, Hpos, E. reflexivity.
Qed.


(** C1.  The claim fails on the code: [int({ min: 1, max: 2 })] is a valid
    input ([min <= max], [multipleOf] 1), the draw [1 - 2^-53] lies in
    [0,1), and the call returns 3, which is above [max].  In binary64
    [real * delta + effectiveMin] is [(1 - 2^-53) * 2 + 1], which rounds to
    3.  Likewise [int({ min: 10, max: 20 })] returns 21. *)
Theorem int_exceeds_max_at_last_draw :
  Randomizer.valid rz_last
  /\ int one_two rz_last = (Returns 3, Randomizer.advance rz_last)
  /\ (max_of one_two <? 3) = true
  /\ int ten_twenty rz_last = (Returns 21, Randomizer.advance rz_last)
  /\ (max_of ten_twenty <? 21) = true.
Proof.
  split; [intros n; split; reflexivity|].
  repeat split; vm_compute; reflexivity.
Qed.

(** C6.  The claim fails on the code: [float({ min: 20, max: 30 })] has
    neither [multipleOf] nor [fractionDigits], the draw [1 - 2^-53] lies in
    [0,1), and the call returns 30, the upper bound itself.  In binary64
    [real * (max - min) + min] is [(1 - 2^-53) * 10 + 20], which rounds to
    30. *)
Theorem float_returns_max_at_last_draw (pow10 log10 : number -> number) :
  Randomizer.valid rz_last
  /\ float pow10 log10 float_twenty_thirty rz_last
     = (Returns (fmax_of float_twenty_thirty), Randomizer.advance rz_last)
  /\ (fmin_of float_twenty_thirty <? fmax_of float_twenty_thirty) = true.
Proof.
  split; [intros n; split; reflexivity|].
  split; vm_compute; reflexivity.
Qed.



(** Two runs on which the rounding of the scaled bounds decides:
    [0.57 * 100] falls below 57, so that the one-point range
    [[0.57, 0.57]] with two fraction digits finds no integer and throws,
    while [0.1 * 10] is exactly 1, and [[0.1, 0.1]] with one fraction digit
    returns [0.1]. *)
Example float_point_57_two_digits :
  float pow10_at_samples log10_at_samples float_point_57 rz_half
  = (Throws (NoSuitableInteger (fifty_seven_hundredths * 100)
                               (fifty_seven_hundredths * 100)), rz_half)
  /\ (fifty_seven_hundredths * 100 <? 57) = true.
Proof.
  split; vm_compute; reflexivity.
Qed.

Example float_point_1_one_digit :
  float pow10_at_samples log10_at_samples float_point_1 rz_half
  = (Returns tenth, rz_half)
  /\ (tenth * 10 =? 1) = true.
Proof.
  split; vm_compute; reflexivity.
Qed.

End Binary64Claims.

(** ** [bigInt] *)

Module BigIntClaims.

Import NumberModule Samples.
Local Open Scope Z_scope.

(** The remainder corrections compute the ceiling and the floor of the exact
    quotient, whatever the signs of the bounds. *)
Lemma bigInt_effectiveMin_ceiling (min multipleOf : Z) :
  0 < multipleOf ->
  bigInt_effectiveMin min multipleOf = - ((- min) / multipleOf).
Proof.
  intros Hm. unfold bigInt_effectiveMin.
  destruct (Z.ltb_spec 0 (Z.rem min multipleOf));
    Z.to_euclidean_division_equations; nia.
Qed.

Lemma bigInt_effectiveMax_floor (max multipleOf : Z) :
  0 < multipleOf ->
  bigInt_effectiveMax max multipleOf = max / multipleOf.
Proof.
  intros Hm. unfold bigInt_effectiveMax.
  destruct (Z.ltb_spec (Z.rem max multipleOf) 0);
    Z.to_euclidean_division_equations; nia.
Qed.

Lemma of_uint_nonneg (digits : Decimal.uint) : 0 <= Z.of_uint digits.
Proof.
  unfold Z.of_uint. apply N2Z.is_nonneg.
Qed.

(** C5.  For bigint bounds [min <= max] and [multipleOf > 0] with a multiple
    of [multipleOf] inside [[min, max]], and whatever digits the string
    generator hands back, [bigInt] returns [v] with [min <= v <= max] and
    [v % multipleOf = 0]; the remainder-corrected quotients are the exact
    ceiling of [min / multipleOf] and floor of [max / multipleOf], for bounds
    of either sign and whether or not they are multiples of the stride. *)
Theorem bigInt_inclusive_bounds
  (string_numeric : nat -> bool -> Randomizer.t -> Decimal.uint * Randomizer.t)
  (options : BigIntArg) (rz : Randomizer.t) :
  bigInt_min_of options <= bigInt_max_of options ->
  0 < bigInt_multipleOf_of options ->
  (exists k : Z, bigInt_min_of options <= k * bigInt_multipleOf_of options
                 <= bigInt_max_of options) ->
  bigInt_effectiveMin (bigInt_min_of options) (bigInt_multipleOf_of options)
  = - ((- bigInt_min_of options) / bigInt_multipleOf_of options)
  /\ bigInt_effectiveMax (bigInt_max_of options) (bigInt_multipleOf_of options)
     = bigInt_max_of options / bigInt_multipleOf_of options
  /\ exists (v : Z) (rz' : Randomizer.t),
       bigInt string_numeric options rz = (Returns v, rz')
       /\ bigInt_min_of options <= v <= bigInt_max_of options
       /\ Z.rem v (bigInt_multipleOf_of options) = 0.
Proof.
  intros Hle Hm [k Hk].
  pose proof (bigInt_effectiveMin_ceiling (bigInt_min_of options) _ Hm) as Elo.
  pose proof (bigInt_effectiveMax_floor (bigInt_max_of options) _ Hm) as Ehi.
  split; [exact Elo|]. split; [exact Ehi|].
  unfold bigInt.
  replace (bigInt_max_of options <? bigInt_min_of options) with false
    by (symmetry; apply Z.ltb_ge; exact Hle).
  replace (bigInt_multipleOf_of options <=? 0) with false
    by (symmetry; apply Z.leb_gt; exact Hm).
  cbv zeta. rewrite Elo, Ehi.
  set (min := bigInt_min_of options) in *.
  set (max := bigInt_max_of options) in *.
  set (m := bigInt_multipleOf_of options) in *.
  set (lo := - (- min / m)). set (hi := max / m).
  assert (Hlo : min <= lo * m /\ (lo - 1) * m < min)
    by (unfold lo; Z.to_euclidean_division_equations; nia).
  assert (Hhi : hi * m <= max /\ max < (hi + 1) * m)
    by (unfold hi; Z.to_euclidean_division_equations; nia).
  assert (Hlok : lo <= k).
  { apply Z.lt_pred_le, (Z.mul_lt_mono_pos_r m); lia. }
  assert (Hkhi : k <= hi).
  { apply Z.lt_succ_r, (Z.mul_lt_mono_pos_r m); lia. }
  assert (Hlohi : lo <= hi) by lia.
  destruct (Z.eqb_spec lo hi) as [E|E].
  - exists (lo * m), rz. split; [reflexivity|]. split; [nia|].
    apply Z.rem_mul. lia.
  - replace (hi <? lo) with false by (symmetry; apply Z.ltb_ge; lia).
    unfold bind.
    destruct (string_numeric _ true rz) as [digits rz'].
    exists ((lo + Z.rem (Z.of_uint digits) (hi - lo + 1)) * m), rz'.
    split; [reflexivity|].
    pose proof (of_uint_nonneg digits) as Hd.
    pose proof (Z.rem_bound_pos (Z.of_uint digits) (hi - lo + 1) Hd ltac:(lia)) as Hoff.
    split; [nia|]. apply Z.rem_mul. lia.
Qed.

Lemma bigInt_inclusive_bounds_witness :
  bigInt_effectiveMin (-25) 10 = -2
  /\ bigInt_effectiveMax 37 10 = 3
  /\ exists (v : Z) (rz' : Randomizer.t),
       bigInt sevens big_uneven rz_half = (Returns v, rz')
       /\ -25 <= v <= 37
       /\ Z.rem v 10 = 0.
Proof.
  apply (bigInt_inclusive_bounds sevens big_uneven rz_half).
  - discriminate.
  - reflexivity.
  - exists 0. split; discriminate.
Defined.

End BigIntClaims.

(** ** [romanNumeral] *)

Module RomanClaims.

Import NumberModule JSFacts IntFacts Samples.
Local Open Scope Z_scope.

Lemma append_empty_r (s : string) : (s ++ "")%string = s.
Proof.
  induction s as [|c s IH]; simpl; [reflexivity | now rewrite IH].
Qed.

Lemma append_associative (a b c : string) :
  ((a ++ b) ++ c)%string = (a ++ (b ++ c))%string.
Proof.
  induction a as [|x a IH]; simpl; [reflexivity | now rewrite IH].
Qed.

(** Subtracting [v] while it fits appends the symbol [remainder / v] times
    and leaves [remainder % v]. *)
Lemma subtract_while_step (fuel : nat) :
  forall (k : string) (v : Z) (result : string) (remainder : Z),
    0 < v -> 0 <= remainder -> remainder / v <= Z.of_nat fuel ->
    subtract_while fuel k v (result, remainder)
    = step (result, remainder) (k, v).
Proof.
  induction fuel as [|fuel IH]; intros k v result remainder Hv Hr Hfuel.
  - assert (Hq : remainder / v = 0) by (pose proof (Z.div_pos remainder v); lia).
    simpl. rewrite Hq. simpl. rewrite append_empty_r.
    rewrite Z.rem_small; [reflexivity|].
    apply Z.div_small_iff in Hq; lia.
  - cbn [subtract_while].
    destruct (Z.leb_spec v remainder) as [Hfit|Hsmall].
    + rewrite IH; try lia.
      * unfold step.
        assert (Hq : remainder / v = (remainder - v) / v + 1).
        { replace remainder with ((remainder - v) + 1 * v) at 1 by lia.
          rewrite Z.div_add by lia. reflexivity. }
        assert (Hq0 : 0 <= (remainder - v) / v) by (apply Z.div_pos; lia).
        rewrite Hq, Z2Nat.inj_add, Nat.add_comm by lia.
        cbn [Z.to_nat Pos.to_nat Pos.iter_op Nat.add JS.repeat].
        rewrite append_associative.
        f_equal.
        rewrite !Z.rem_mod_nonneg by lia.
        replace remainder with ((remainder - v) + 1 * v) at 2 by lia.
        rewrite Z.mod_add by lia. reflexivity.
      * assert (remainder / v = (remainder - v) / v + 1).
        { replace remainder with ((remainder - v) + 1 * v) at 1 by lia.
          rewrite Z.div_add by lia. reflexivity. }
        lia.
    + unfold step. rewrite Z.div_small, Z.rem_small by lia.
      simpl. rewrite append_empty_r. reflexivity.
Qed.

Lemma step_remainder (result : string) (remainder : Z) (k : string) (v : Z) :
  0 < v -> 0 <= remainder ->
  0 <= snd (step (result, remainder) (k, v)) <= remainder.
Proof.
  intros Hv Hr. simpl. rewrite Z.rem_mod_nonneg by lia.
  pose proof (Z.mod_pos_bound remainder v Hv).
  pose proof (Z.mod_le remainder v Hr Hv). lia.
Qed.

(** The loop of the source and the greedy subtraction agree on every table
    of positive values. *)
Lemma greedy_with_encode_with (table : list (string * Z)) (n : Z) :
  Forall (fun entry => 0 < snd entry) table ->
  forall (result : string) (remainder : Z),
    0 <= remainder <= n ->
    fold_left (fun state entry =>
                 subtract_while (Z.to_nat n) (fst entry) (snd entry) state)
              table (result, remainder)
    = fold_left step table (result, remainder).
Proof.
  induction 1 as [|[k v] table Hv _ IH]; intros result remainder Hr.
  - reflexivity.
  - cbn [fold_left fst snd]. simpl in Hv.
    rewrite subtract_while_step; try lia.
    + pose proof (step_remainder result remainder k v Hv ltac:(lia)) as Hs.
      destruct (step (result, remainder) (k, v)) as [result' remainder'].
      simpl in Hs. apply IH. lia.
    + rewrite Z2Nat.id by lia.
      pose proof (Z.div_le_upper_bound remainder v remainder Hv). nia.
Qed.

Lemma lookup_positive : Forall (fun entry => 0 < snd entry) lookup.
Proof.
  unfold lookup. repeat constructor.
Qed.

Lemma encode_greedy (n : Z) : 0 <= n -> encode n = greedy n.
Proof.
  intros Hn. unfold encode, greedy, encode_with, greedy_with.
  rewrite (greedy_with_encode_with lookup n lookup_positive); [reflexivity | lia].
Qed.

(** C8.  For every [n] in [[1, 3999]], [romanNumeral({ min: n, max: n })]
    returns, without a draw, what the loop over the descending table
    M, CM, D, CD, C, XC, L, XL, X, IX, V, IV, I produces from [n] (each symbol
    [floor(remainder / value)] times, the remainder reduced modulo the value),
    which is the greedy encoding by repeated subtraction; for [n = 1994] it
    is "MCMXCIV". *)
Theorem romanNumeral_of_fixed_value :
  (forall (n : Z) (rz : Randomizer.t),
      1 <= n <= 3999 ->
      romanNumeral (roman_exactly n) rz = (Returns (encode n), rz)
      /\ encode n = greedy n)
  /\ (forall rz : Randomizer.t,
         romanNumeral (roman_exactly 1994) rz = (Returns "MCMXCIV"%string, rz)).
Proof.
  assert (General : forall (n : Z) (rz : Randomizer.t),
             1 <= n <= 3999 ->
             romanNumeral (roman_exactly n) rz = (Returns (encode n), rz)).
  { intros n rz Hn.
    unfold romanNumeral, roman_exactly.
    cbn [roman_normalize roman_min roman_max JS.default].
    replace (JS.ltb (inject_Z n) DEFAULT_MIN) with false.
    2:{ symmetry. apply ltb_false. unfold DEFAULT_MIN.
        change 1%Q with (inject_Z 1). rewrite <- Zle_Qle. lia. }
    replace (JS.ltb DEFAULT_MAX (inject_Z n)) with false.
    2:{ symmetry. apply ltb_false. unfold DEFAULT_MAX.
        change 3999%Q with (inject_Z 3999). rewrite <- Zle_Qle. lia. }
    set (options := IntObject _).
    destruct (effective_bounds_of_integer n) as [Elo Ehi].
    assert (Hint : JS.isInteger (multipleOf_of options) = true) by reflexivity.
    assert (Hpos : (0 < multipleOf_of options)%Q) by reflexivity.
    unfold bind.
    destruct (int_cases options rz Hint Hpos) as [_ Run | L _ | L _].
    - rewrite Run.
      change (effectiveMin (min_of options) (multipleOf_of options))
        with (effectiveMin (inject_Z n) 1).
      rewrite Elo. change (Qfloor (multipleOf_of options)) with 1.
      rewrite Z.mul_1_r. reflexivity.
    - exfalso.
      change (effectiveMin (min_of options) (multipleOf_of options))
        with (effectiveMin (inject_Z n) 1) in L.
      change (effectiveMax (max_of options) (multipleOf_of options))
        with (effectiveMax (inject_Z n) 1) in L.
      lia.
    - exfalso.
      change (effectiveMin (min_of options) (multipleOf_of options))
        with (effectiveMin (inject_Z n) 1) in L.
      change (effectiveMax (max_of options) (multipleOf_of options))
        with (effectiveMax (inject_Z n) 1) in L.
      lia. }
  split.
  - intros n rz Hn. split; [apply General; exact Hn | apply encode_greedy; lia].
  - intros rz. rewrite General by lia. reflexivity.
Qed.

Lemma romanNumeral_of_fixed_value_witness :
  romanNumeral (roman_exactly 2024) rz_half = (Returns (encode 2024), rz_half)
  /\ encode 2024 = greedy 2024.
Proof.
  apply (proj1 romanNumeral_of_fixed_value 2024 rz_half). lia.
Defined.

End RomanClaims.

(** ** 32-bit operators *)

Module BitFacts.

Local Open Scope Z_scope.

Lemma toUint32_range (z : Z) : 0 <= JS.toUint32 z < 2 ^ 32.
Proof.
  unfold JS.toUint32. apply Z.mod_pos_bound. reflexivity.
Qed.

Lemma toUint32_small (z : Z) : 0 <= z < 2 ^ 32 -> JS.toUint32 z = z.
Proof.
  unfold JS.toUint32. apply Z.mod_small.
Qed.

Lemma toInt32_small (z : Z) : - 2 ^ 31 <= z < 2 ^ 31 -> JS.toInt32 z = z.
Proof.
  intros H. unfold JS.toInt32. rewrite Z.mod_small; lia.
Qed.

Lemma toUint32_toInt32 (z : Z) : JS.toUint32 (JS.toInt32 z) = JS.toUint32 z.
Proof.
  unfold JS.toUint32, JS.toInt32.
  Z.to_euclidean_division_equations. lia.
Qed.

Lemma toUint32_land_ones (z : Z) : JS.toUint32 z = Z.land z (Z.ones 32).
Proof.
  unfold JS.toUint32. rewrite Z.land_ones by lia. reflexivity.
Qed.

Lemma toUint32_lor (a b : Z) :
  JS.toUint32 (Z.lor a b) = Z.lor (JS.toUint32 a) (JS.toUint32 b).
Proof.
  rewrite !toUint32_land_ones. apply Z.land_lor_distr_l.
Qed.

Lemma toUint32_land (a b : Z) :
  JS.toUint32 (Z.land a b) = Z.land (JS.toUint32 a) (JS.toUint32 b).
Proof.
  rewrite !toUint32_land_ones.
  apply Z.bits_inj'. intros i Hi. rewrite !Z.land_spec.
  destruct (Z.testbit a i), (Z.testbit b i), (Z.testbit (Z.ones 32) i); reflexivity.
Qed.

Lemma toUint32_lnot (a : Z) :
  JS.toUint32 (Z.lnot a) = 2 ^ 32 - 1 - JS.toUint32 a.
Proof.
  unfold JS.toUint32, Z.lnot. rewrite <- Z.sub_1_r.
  Z.to_euclidean_division_equations. lia.
Qed.

Lemma toUint32_bor (a b : Z) :
  JS.toUint32 (JS.bor a b) = Z.lor (JS.toUint32 a) (JS.toUint32 b).
Proof.
  unfold JS.bor. rewrite toUint32_toInt32, toUint32_lor, !toUint32_toInt32.
  reflexivity.
Qed.

Lemma toUint32_band (a b : Z) :
  JS.toUint32 (JS.band a b) = Z.land (JS.toUint32 a) (JS.toUint32 b).
Proof.
  unfold JS.band. rewrite toUint32_toInt32, toUint32_land, !toUint32_toInt32.
  reflexivity.
Qed.

Lemma toUint32_mod_eq (a b : Z) :
  JS.toUint32 a = JS.toUint32 b -> JS.toUint32 (Z.lnot a) = JS.toUint32 (Z.lnot b).
Proof.
  rewrite !toUint32_lnot. intros ->. reflexivity.
Qed.

Lemma toUint32_bnot (a : Z) :
  JS.toUint32 (JS.bnot a) = JS.toUint32 (Z.lnot a).
Proof.
  unfold JS.bnot. rewrite toUint32_toInt32.
  apply toUint32_mod_eq, toUint32_toInt32.
Qed.

Lemma ushr_div (a n : Z) :
  JS.ushr a n = JS.toUint32 a / 2 ^ (JS.toUint32 n mod 32).
Proof.
  unfold JS.ushr. apply Z.shiftr_div_pow2.
  apply Z.mod_pos_bound. reflexivity.
Qed.

(** [x & 0xff] is the low byte of [x]. *)
Lemma band_255 (x : Z) : JS.band x 255 = x mod 256.
Proof.
  unfold JS.band.
  rewrite (toInt32_small 255) by (split; [discriminate | reflexivity]).
  change 255 with (Z.ones 8). rewrite Z.land_ones by lia.
  change (2 ^ 8) with 256.
  rewrite toInt32_small.
  - unfold JS.toInt32. Z.to_euclidean_division_equations. lia.
  - pose proof (Z.mod_pos_bound (JS.toInt32 x) 256 ltac:(lia)). lia.
Qed.

(** Bits that do not overlap add up. *)
Lemma lor_disjoint (q h k : Z) :
  0 <= k -> 0 <= h < 2 ^ k -> Z.lor (q * 2 ^ k) h = q * 2 ^ k + h.
Proof.
  intros Hk Hh.
  assert (D : Z.land (q * 2 ^ k) h = 0).
  { apply Z.bits_inj'. intros i Hi.
    rewrite Z.land_spec, Z.bits_0.
    destruct (Z.lt_ge_cases i k) as [Hlow|Hhigh].
    - rewrite Z.mul_pow2_bits_low by exact Hlow. reflexivity.
    - destruct (Z.eq_dec h 0) as [->|Hnz].
      + rewrite Z.bits_0. apply andb_false_r.
      + rewrite (Z.bits_above_log2 h i); [apply andb_false_r | lia |].
        apply Z.lt_le_trans with k; [|exact Hhigh].
        apply Z.log2_lt_pow2; lia. }
  rewrite Z.add_nocarry_lxor by exact D.
  symmetry. apply Z.lxor_lor. exact D.
Qed.

(** [0xffffffff >>> n] keeps [32 - n mod 32] low bits set. *)
Lemma ushr_all_ones (n : Z) :
  JS.ushr 4294967295 n = Z.ones (32 - JS.toUint32 n mod 32).
Proof.
  rewrite ushr_div, Z.ones_equiv.
  pose proof (Z.mod_pos_bound (JS.toUint32 n) 32 ltac:(lia)) as Hs.
  set (s := JS.toUint32 n mod 32) in *.
  change (JS.toUint32 4294967295) with (2 ^ 32 - 1).
  replace 32 with ((32 - s) + s) at 1 by lia.
  rewrite Z.pow_add_r by lia.
  assert (0 < 2 ^ s) by (apply Z.pow_pos_nonneg; lia).
  assert (0 < 2 ^ (32 - s)) by (apply Z.pow_pos_nonneg; lia).
  symmetry. apply Z.div_unique with (r := 2 ^ s - 1); [lia | nia].
Qed.

Lemma ushr_shift_mod_32 (a n : Z) :
  JS.ushr a n = JS.ushr a (n mod 32).
Proof.
  rewrite !ushr_div. f_equal. f_equal.
  unfold JS.toUint32.
  Z.to_euclidean_division_equations. lia.
Qed.

End BitFacts.

(** ** [ipv4] *)

Module Ipv4Facts.

Import InternetModule JSFacts IntFacts BitFacts.
Local Open Scope Z_scope.

(** The host offset drawn over [[0, subnetMask]]. *)
Lemma host_offset_run (subnetMask : Z) (rz : Randomizer.t) :
  1 <= subnetMask ->
  exists hostOffset : Z,
    NumberModule.int (NumberModule.IntNumber (inject_Z subnetMask)) rz
    = (Returns hostOffset, Randomizer.advance rz)
    /\ (Randomizer.valid rz -> 0 <= hostOffset <= subnetMask).
Proof.
  intros Hmask.
  set (options := NumberModule.IntNumber (inject_Z subnetMask)).
  assert (Hint : JS.isInteger (NumberModule.multipleOf_of options) = true)
    by reflexivity.
  assert (Hpos : (0 < NumberModule.multipleOf_of options)%Q) by reflexivity.
  assert (Elo : NumberModule.effectiveMin (NumberModule.min_of options)
                  (NumberModule.multipleOf_of options) = 0) by reflexivity.
  assert (Ehi : NumberModule.effectiveMax (NumberModule.max_of options)
                  (NumberModule.multipleOf_of options) = subnetMask)
    by apply (effective_bounds_of_integer subnetMask).
  destruct (int_cases options rz Hint Hpos) as [E _ | L _ | L Run]; try lia.
  eexists. split; [exact Run|].
  intros Hrz. destruct (Hrz (Randomizer.position rz)) as [R0 R1].
  pose proof (scaled_draw_between (Randomizer.peek rz) _ _ R0 R1 L) as Hj.
  change (Qfloor (NumberModule.multipleOf_of options)) with 1.
  rewrite Z.mul_1_r. rewrite Elo, Ehi in Hj. rewrite Elo, Ehi. exact Hj.
Qed.

Lemma subnetMask_ones (cidrBlock : string) :
  exists k : Z, 1 <= k <= 32 /\ subnetMask_of cidrBlock = Z.ones k.
Proof.
  unfold subnetMask_of. rewrite ushr_all_ones.
  pose proof (Z.mod_pos_bound (JS.toUint32 (JS.parseInt (subnet_of cidrBlock))) 32
                ltac:(lia)).
  eexists. split; [|reflexivity]. lia.
Qed.

Lemma subnetMask_at_least_1 (cidrBlock : string) : 1 <= subnetMask_of cidrBlock.
Proof.
  destruct (subnetMask_ones cidrBlock) as [k [Hk ->]].
  rewrite Z.ones_equiv.
  assert (2 ^ 1 <= 2 ^ k) by (apply Z.pow_le_mono_r; lia).
  change (2 ^ 1) with 2 in *. lia.
Qed.

(** What [ipv4] does with a block that matches the pattern. *)
Lemma ipv4_run (options : Ipv4Options) (rz : Randomizer.t) :
  cidrPattern_test (cidrBlock_of options) = true ->
  exists hostOffset : Z,
    ipv4 options rz
    = (Returns (dotted (octets (JS.bor (networkIp_of (cidrBlock_of options))
                                       hostOffset))),
       Randomizer.advance rz)
    /\ (Randomizer.valid rz ->
        0 <= hostOffset <= subnetMask_of (cidrBlock_of options)).
Proof.
  intros Hmatch. unfold ipv4. rewrite Hmatch. cbn [negb].
  destruct (host_offset_run (subnetMask_of (cidrBlock_of options)) rz
              (subnetMask_at_least_1 _)) as [hostOffset [Run Hrange]].
  exists hostOffset. split; [|exact Hrange].
  unfold bind. rewrite Run. reflexivity.
Qed.

(** Clearing the host bits and setting some of them again stays inside the
    block. *)
Lemma host_bits_contained (rawIp k hostOffset : Z) :
  1 <= k <= 32 ->
  0 <= hostOffset <= Z.ones k ->
  let networkIp := JS.band rawIp (JS.bnot (Z.ones k)) in
  JS.toUint32 (JS.bor networkIp hostOffset)
  = JS.toUint32 networkIp + hostOffset
  /\ JS.toUint32 (JS.bor networkIp (Z.ones k))
     = JS.toUint32 networkIp + Z.ones k.
Proof.
  intros Hk Hh networkIp.
  assert (P : 0 < 2 ^ k) by (apply Z.pow_pos_nonneg; lia).
  assert (Hones : Z.ones k = 2 ^ k - 1) by (rewrite Z.ones_equiv; lia).
  assert (Hle : 2 ^ k <= 2 ^ 32) by (apply Z.pow_le_mono_r; lia).
  assert (Hnet : JS.toUint32 networkIp
                 = ((rawIp / 2 ^ k) mod 2 ^ (32 - k)) * 2 ^ k).
  { unfold networkIp.
    rewrite toUint32_band, toUint32_bnot, <- toUint32_land.
    rewrite <- Z.ldiff_land, Z.ldiff_ones_r by lia.
    rewrite Z.shiftr_div_pow2, Z.shiftl_mul_pow2 by lia.
    unfold JS.toUint32.
    replace (2 ^ 32) with (2 ^ (32 - k) * 2 ^ k)
      by (rewrite <- Z.pow_add_r by lia; f_equal; lia).
    apply Z.mul_mod_distr_r; [|lia].
    apply Z.pow_nonzero; lia. }
  split.
  - rewrite toUint32_bor, Hnet, (toUint32_small hostOffset) by lia.
    apply lor_disjoint; lia.
  - rewrite toUint32_bor, Hnet, (toUint32_small (Z.ones k)) by lia.
    apply lor_disjoint; lia.
Qed.

(** The four bytes written out are those of the unsigned value of [ip]. *)
Lemma octets_value (ip : Z) :
  address_value (octets ip) = JS.toUint32 ip
  /\ forallb is_byte (octets ip) = true.
Proof.
  unfold octets, address_value, is_byte. cbn [fold_left forallb].
  rewrite !band_255, !ushr_div.
  change (JS.toUint32 24 mod 32) with 24.
  change (JS.toUint32 16 mod 32) with 16.
  change (JS.toUint32 8 mod 32) with 8.
  unfold JS.toUint32.
  change (2 ^ 32) with 4294967296. change (2 ^ 24) with 16777216.
  change (2 ^ 16) with 65536. change (2 ^ 8) with 256.
  split.
  - Z.to_euclidean_division_equations. lia.
  - rewrite !andb_true_iff, !Z.leb_le.
    Z.to_euclidean_division_equations. lia.
Qed.

(** For octets in 0..255 the raw address is the value the string spells. *)
Lemma rawIp_value (o1 o2 o3 o4 : Z) :
  0 <= o1 <= 255 -> 0 <= o2 <= 255 -> 0 <= o3 <= 255 -> 0 <= o4 <= 255 ->
  JS.toUint32 (JS.bor (JS.bor (JS.bor (JS.shl o1 24) (JS.shl o2 16)) (JS.shl o3 8)) o4)
  = address_value [o1; o2; o3; o4].
Proof.
  intros H1 H2 H3 H4.
  assert (Hshl : forall o n, 0 <= o <= 255 -> 0 <= n <= 24 ->
                   JS.toUint32 (JS.shl o n) = o * 2 ^ n).
  { intros o n Ho Hn. unfold JS.shl.
    rewrite toUint32_toInt32, (toInt32_small o) by lia.
    rewrite (toUint32_small n) by lia.
    rewrite (Z.mod_small n 32) by lia.
    rewrite Z.shiftl_mul_pow2 by lia.
    apply toUint32_small.
    assert (0 < 2 ^ n) by (apply Z.pow_pos_nonneg; lia).
    assert (2 ^ n <= 2 ^ 24) by (apply Z.pow_le_mono_r; lia).
    change (2 ^ 32) with (256 * 2 ^ 24). nia. }
  rewrite !toUint32_bor, !Hshl, (toUint32_small o4) by lia.
  unfold address_value. cbn [fold_left].
  rewrite (lor_disjoint o1 (o2 * 2 ^ 16) 24)
    by (change (2 ^ 16) with 65536; change (2 ^ 24) with 16777216; lia).
  replace (o1 * 2 ^ 24 + o2 * 2 ^ 16) with ((o1 * 256 + o2) * 2 ^ 16)
    by (change (2 ^ 16) with 65536; change (2 ^ 24) with 16777216; lia).
  rewrite (lor_disjoint (o1 * 256 + o2) (o3 * 2 ^ 8) 16)
    by (change (2 ^ 16) with 65536; change (2 ^ 8) with 256; lia).
  replace ((o1 * 256 + o2) * 2 ^ 16 + o3 * 2 ^ 8)
    with (((o1 * 256 + o2) * 256 + o3) * 2 ^ 8)
    by (change (2 ^ 16) with 65536; change (2 ^ 8) with 256; lia).
  rewrite (lor_disjoint ((o1 * 256 + o2) * 256 + o3) o4 8)
    by (change (2 ^ 8) with 256; lia).
  change (2 ^ 8) with 256. lia.
Qed.

Lemma is_byte_range (b : Z) : is_byte b = true <-> 0 <= b <= 255.
Proof.
  unfold is_byte. rewrite andb_true_iff, !Z.leb_le. reflexivity.
Qed.

Lemma nth_is_byte (raw : list Z) (i : nat) :
  forallb is_byte raw = true -> 0 <= nth i raw 0 <= 255.
Proof.
  intros H. rewrite forallb_forall in H.
  destruct (nth_in_or_default i raw 0) as [Hin | ->]; [|lia].
  apply is_byte_range, H, Hin.
Qed.

End Ipv4Facts.

(** ** Claims about [ipv4] *)

Module Ipv4Claims.

Import InternetModule JSFacts IntFacts BitFacts Ipv4Facts Samples.
Local Open Scope Z_scope.

Lemma valid_cidr_parts (cidrBlock : string) :
  valid_cidr cidrBlock = true ->
  cidrPattern_test cidrBlock = true
  /\ forallb is_byte (rawOctets_of cidrBlock) = true
  /\ JS.parseInt (subnet_of cidrBlock) <= 32.
Proof.
  unfold valid_cidr. rewrite !andb_true_iff, Z.leb_le. tauto.
Qed.

Lemma ipv4_contained (options : Ipv4Options) (rz : Randomizer.t) :
  Randomizer.valid rz ->
  cidrPattern_test (cidrBlock_of options) = true ->
  exists bytes : list Z,
    ipv4 options rz = (Returns (dotted bytes), Randomizer.advance rz)
    /\ List.length bytes = 4%nat
    /\ forallb is_byte bytes = true
    /\ JS.toUint32 (networkIp_of (cidrBlock_of options)) <= address_value bytes
    /\ address_value bytes
       <= JS.toUint32 (JS.bor (networkIp_of (cidrBlock_of options))
                              (subnetMask_of (cidrBlock_of options))).
Proof.
  intros Hrz Hmatch.
  destruct (ipv4_run options rz Hmatch) as [hostOffset [Run Hrange]].
  specialize (Hrange Hrz).
  exists (octets (JS.bor (networkIp_of (cidrBlock_of options)) hostOffset)).
  destruct (octets_value (JS.bor (networkIp_of (cidrBlock_of options)) hostOffset))
    as [Hvalue Hbytes].
  split; [exact Run|]. split; [reflexivity|]. split; [exact Hbytes|].
  rewrite Hvalue. unfold networkIp_of.
  destruct (subnetMask_ones (cidrBlock_of options)) as [k [Hk Hmask]].
  rewrite Hmask in *.
  destruct (host_bits_contained (rawIp_of (cidrBlock_of options)) k hostOffset
              Hk Hrange) as [A B].
  cbv zeta in A, B. rewrite A, B.
  assert (0 <= Z.ones k) by (rewrite Z.ones_equiv; pose proof (Z.pow_pos_nonneg 2 k); lia).
  lia.
Qed.

(** C3.  The claim fails on the code at the prefix length 32, which the
    claim counts as valid.  ['192.168.1.7/32'] names the block of the single
    address 192.168.1.7, but [0xffffffff >>> 32] shifts by [32 mod 32 = 0]
    places, so that [subnetMask] is [0xffffffff], every bit counts as a host
    bit and [networkIp] is 0: with the draw [1/2] the call returns
    [128.0.0.0]. *)
Theorem ipv4_prefix_32_leaves_block :
  valid_cidr "192.168.1.7/32" = true
  /\ Randomizer.valid rz_half
  /\ subnetMask_of "192.168.1.7/32" = 4294967295
  /\ networkIp_of "192.168.1.7/32" = 0
  /\ ipv4 (in_block "192.168.1.7/32") rz_half
     = (Returns "128.0.0.0"%string, Randomizer.advance rz_half).
Proof.
  split; [reflexivity|].
  split; [intros n; split; [discriminate | reflexivity]|].
  repeat split; vm_compute; reflexivity.
Qed.

Lemma long_prefixes_checked :
  forallb (fun p =>
             cidrPattern_test ("10.0.0.0/" ++ JS.toString p)
             && (JS.parseInt (subnet_of ("10.0.0.0/" ++ JS.toString p)) =? p)
             && (subnetMask_of ("10.0.0.0/" ++ JS.toString p)
                 =? JS.ushr 4294967295 (p - 32)))
          long_prefixes = true.
Proof.
  vm_compute. reflexivity.
Qed.

Lemma in_long_prefixes (p : Z) : 33 <= p <= 99 -> In p long_prefixes.
Proof.
  intros Hp. unfold long_prefixes.
  rewrite <- (Z2Nat.id p) by lia.
  apply in_map, in_seq. lia.
Qed.

(** C10.  [ipv4] raises nothing for a block that matches the pattern
    ddd.ddd.ddd.ddd/dd, whatever the numbers in it: it draws once and returns
    an address.  Prefix lengths 33 to 99 match the pattern, and the subnet
    mask is computed with the shift count reduced modulo 32, so that '/33'
    gives the mask, and the address, of '/1'. *)
Theorem ipv4_prefix_beyond_32 :
  (forall (options : Ipv4Options) (rz : Randomizer.t),
      cidrPattern_test (cidrBlock_of options) = true ->
      exists bytes : list Z,
        ipv4 options rz = (Returns (dotted bytes), Randomizer.advance rz)
        /\ List.length bytes = 4%nat /\ forallb is_byte bytes = true)
  /\ (forall cidrBlock : string,
         subnetMask_of cidrBlock
         = JS.ushr 4294967295 (JS.parseInt (subnet_of cidrBlock) mod 32))
  /\ (forall (p : Z) (rz : Randomizer.t),
         33 <= p <= 99 ->
         cidrPattern_test ("10.0.0.0/" ++ JS.toString p) = true
         /\ JS.parseInt (subnet_of ("10.0.0.0/" ++ JS.toString p)) = p
         /\ subnetMask_of ("10.0.0.0/" ++ JS.toString p)
            = JS.ushr 4294967295 (p - 32)
         /\ exists bytes : list Z,
              ipv4 (in_block ("10.0.0.0/" ++ JS.toString p)) rz
              = (Returns (dotted bytes), Randomizer.advance rz))
  /\ subnetMask_of "10.0.0.0/33" = subnetMask_of "10.0.0.0/1"
  /\ (forall rz : Randomizer.t,
         ipv4 (in_block "10.0.0.0/33") rz = ipv4 (in_block "10.0.0.0/1") rz).
Proof.
  assert (Runs : forall (options : Ipv4Options) (rz : Randomizer.t),
             cidrPattern_test (cidrBlock_of options) = true ->
             exists bytes : list Z,
               ipv4 options rz = (Returns (dotted bytes), Randomizer.advance rz)
               /\ List.length bytes = 4%nat /\ forallb is_byte bytes = true).
  { intros options rz Hmatch.
    destruct (ipv4_run options rz Hmatch) as [hostOffset [Run _]].
    eexists. split; [exact Run|]. split; [reflexivity|].
    apply octets_value. }
  split; [exact Runs|]. split.
  { intros cidrBlock. unfold subnetMask_of. apply ushr_shift_mod_32. }
  split.
  { intros p rz Hp.
    pose proof long_prefixes_checked as H.
    rewrite forallb_forall in H.
    specialize (H p (in_long_prefixes p Hp)).
    cbv beta in H.
    rewrite !andb_true_iff, !Z.eqb_eq in H.
    destruct H as [[Hmatch Hparse] Hmask].
    repeat split; try assumption.
    destruct (Runs (in_block ("10.0.0.0/" ++ JS.toString p)) rz Hmatch)
      as [bytes [Run _]].
    exists bytes. exact Run. }
  split; [reflexivity|].
  intros rz. unfold ipv4.
  change (cidrPattern_test (cidrBlock_of (in_block "10.0.0.0/33"))) with true.
  change (cidrPattern_test (cidrBlock_of (in_block "10.0.0.0/1"))) with true.
  cbn [negb].
  change (subnetMask_of (cidrBlock_of (in_block "10.0.0.0/33"))) with 2147483647.
  change (subnetMask_of (cidrBlock_of (in_block "10.0.0.0/1"))) with 2147483647.
  change (networkIp_of (cidrBlock_of (in_block "10.0.0.0/33"))) with 0.
  change (networkIp_of (cidrBlock_of (in_block "10.0.0.0/1"))) with 0.
  reflexivity.
Qed.

Lemma ipv4_prefix_beyond_32_witness :
  exists bytes : list Z,
    ipv4 (in_block "192.168.1.7/33") rz_half
    = (Returns (dotted bytes), Randomizer.advance rz_half)
    /\ List.length bytes = 4%nat /\ forallb is_byte bytes = true.
Proof.
  apply (proj1 ipv4_prefix_beyond_32 (in_block "192.168.1.7/33") rz_half).
  reflexivity.
Defined.

End Ipv4Claims.

(** ** Runs on concrete inputs *)

Module Runs.

Import NumberModule InternetModule Samples.

Example int_tens_at_half : int tens rz_half = (Returns 60, Randomizer.advance rz_half).
Proof. reflexivity. Qed.

Example int_bare_number_at_half :
  int (IntNumber 100) rz_half = (Returns 50, Randomizer.advance rz_half).
Proof. reflexivity. Qed.

Example int_reversed_range :
  int ten_one rz_half = (Throws (MaxNotGreaterThanMin 10 1), rz_half).
Proof. reflexivity. Qed.

Example int_stride_too_coarse :
  int one_one_by_ten rz_half = (Throws (NoSuitableInteger 1 1), rz_half).
Proof. reflexivity. Qed.

Example int_fractional_stride :
  int (IntObject {| int_min := Some 1%Q; int_max := Some 1%Q;
                    int_multipleOf := Some (1 # 2)%Q |}) rz_half
  = (Throws MultipleOfNotInteger, rz_half).
Proof. reflexivity. Qed.

Example float_quarters_at_half :
  fst (float (FloatObject {| float_min := Some 0%Q; float_max := Some 10%Q;
                             float_fractionDigits := None;
                             float_multipleOf := Some (1 # 4)%Q |}) rz_half)
  = Returns (20 # 4)%Q.
Proof. vm_compute. reflexivity. Qed.

Example float_one_digit_at_half :
  fst (float (FloatObject {| float_min := None; float_max := None;
                             float_fractionDigits := Some 1%Q;
                             float_multipleOf := None |}) rz_half)
  = Returns (5 # 10)%Q.
Proof. vm_compute. reflexivity. Qed.

Example float_negative_digits :
  fst (float (FloatObject {| float_min := None; float_max := None;
                             float_fractionDigits := Some (-1)%Q;
                             float_multipleOf := None |}) rz_half)
  = Throws FractionDigitsNegative.
Proof. reflexivity. Qed.

Example bigInt_uneven_bounds :
  bigInt sevens big_uneven rz_half = (Returns (-10), rz_half).
Proof. reflexivity. Qed.

Example bigInt_default_max :
  bigInt_max_of (BigIntObject {| big_min := Some 1000000; big_max := None;
                                 big_multipleOf := None |})
  = 1000000000999999.
Proof. reflexivity. Qed.

Example romanNumeral_above_3999 :
  romanNumeral (RomanNumber 4000) rz_half = (Throws (MaxValueTooLarge 4000), rz_half).
Proof. reflexivity. Qed.

Example romanNumeral_below_1 :
  romanNumeral (RomanObject {| roman_min := Some 0%Q; roman_max := None |}) rz_half
  = (Throws (MinValueTooSmall 0), rz_half).
Proof. reflexivity. Qed.

Example ipv4_private_a_at_half :
  ipv4 private_a rz_half = (Returns "10.128.0.0"%string, Randomizer.advance rz_half).
Proof. vm_compute. reflexivity. Qed.

Example ipv4_four_digit_octet :
  ipv4 (in_block "1192.168.1.7/24") rz_half
  = (Throws (InvalidCidrBlock "1192.168.1.7/24"), rz_half).
Proof. reflexivity. Qed.

Example ipv4_three_digit_prefix :
  fst (ipv4 (in_block "192.168.1.7/024") rz_half)
  = Throws (InvalidCidrBlock "192.168.1.7/024").
Proof. reflexivity. Qed.

Example ipv4_slash_24_at_half :
  fst (ipv4 (in_block "192.168.1.7/24") rz_half) = Returns "192.168.1.128"%string.
Proof. vm_compute. reflexivity. Qed.

Example subnetMask_slash_32 : subnetMask_of "192.168.1.7/32" = 4294967295.
Proof. reflexivity. Qed.

End Runs.

(** * Further properties *)

(** ** [int]: what it draws *)

Module IntExtras.

Import NumberModule JSFacts IntFacts Samples.
Local Open Scope Q_scope.

Lemma int_rejects_fractional_stride (options : IntArg) (rz : Randomizer.t) :
  JS.isInteger (multipleOf_of options) = false ->
  int options rz = (Throws MultipleOfNotInteger, rz).
Proof.
  intros H. unfold int. rewrite H. reflexivity.
Qed.

Lemma int_rejects_nonpositive_stride (options : IntArg) (rz : Randomizer.t) :
  JS.isInteger (multipleOf_of options) = true ->
  multipleOf_of options <= 0 ->
  int options rz = (Throws MultipleOfNotPositive, rz).
Proof.
  intros H Hle. unfold int. rewrite H.
  apply Qle_bool_iff in Hle. rewrite Hle. reflexivity.
Qed.

Lemma stride_cases (m : Q) :
  JS.isInteger m = false
  \/ (JS.isInteger m = true /\ m <= 0)
  \/ (JS.isInteger m = true /\ 0 < m).
Proof.
  destruct (JS.isInteger m); [|left; reflexivity].
  right. destruct (Qlt_le_dec 0 m); [right | left]; split; auto.
Qed.

Lemma int_state_after (options : IntArg) (rz : Randomizer.t) :
  forall (outcome : Outcome Z) (rz' : Randomizer.t),
    int options rz = (outcome, rz') ->
    match outcome with
    | Throws _ => rz' = rz
    | Returns _ => rz' = rz \/ rz' = Randomizer.advance rz
    end.
Proof.
  intros outcome rz' Run.
  destruct (stride_cases (multipleOf_of options)) as [H | [[H Hle] | [Hint Hpos]]].
  - rewrite (int_rejects_fractional_stride _ _ H) in Run.
    injection Run as <- <-. reflexivity.
  - rewrite (int_rejects_nonpositive_stride _ _ H Hle) in Run.
    injection Run as <- <-. reflexivity.
  - destruct (int_cases options rz Hint Hpos) as [_ R | _ R | _ R];
      rewrite R in Run; injection Run as <- <-.
    + left; reflexivity.
    + reflexivity.
    + right; reflexivity.
Qed.

(** X2.  A call of [int] that throws leaves the randomizer untouched, and a
    call that returns has drawn once or not at all. *)
Theorem int_draws_at_most_once (options : IntArg) (rz rz' : Randomizer.t) :
  (forall e : FakerError, int options rz = (Throws e, rz') -> rz' = rz)
  /\ (forall v : Z, int options rz = (Returns v, rz') ->
        rz' = rz \/ rz' = Randomizer.advance rz).
Proof.
  split.
  - intros e Run. apply (int_state_after options rz _ _ Run).
  - intros v Run. apply (int_state_after options rz _ _ Run).
Qed.

End IntExtras.

(** ** [float]: what it draws *)

Module FloatExtras.

Import NumberModule JSFacts IntFacts FloatFacts FloatClaims IntExtras Samples.
Local Open Scope Q_scope.

Lemma float_rejects_reversed_range (options : FloatArg) (rz : Randomizer.t) :
  fmax_of options < fmin_of options ->
  float options rz
  = (Throws (MaxNotGreaterThanMin (fmin_of options) (fmax_of options)), rz).
Proof.
  intros H. unfold float. apply ltb_true in H. rewrite H. reflexivity.
Qed.

(** X6.  A call of [float] that throws leaves the randomizer untouched, and a
    call that returns has drawn once or not at all. *)
Theorem float_draws_at_most_once (options : FloatArg) (rz rz' : Randomizer.t) :
  (forall e : FakerError, float options rz = (Throws e, rz') -> rz' = rz)
  /\ (forall v : Q, float options rz = (Returns v, rz') ->
        rz' = rz \/ rz' = Randomizer.advance rz).
Proof.
  unfold float.
  destruct (JS.ltb (fmax_of options) (fmin_of options)).
  { split; [intros e [= _ <-]; reflexivity | intros v; discriminate]. }
  assert (Tail : forall stride_or_none : option Q,
    (forall e : FakerError,
        match stride_or_none with
        | Some multipleOf =>
            if Qle_bool multipleOf 0 then throw MultipleOfNotPositive
            else
              bind (int (IntObject
                           {| int_min := Some (fmin_of options * factor_of multipleOf);
                              int_max := Some (fmax_of options * factor_of multipleOf);
                              int_multipleOf := None |}))
                   (fun i => ret (inject_Z i / factor_of multipleOf))
        | None => bind next (fun real => ret (real * (fmax_of options - fmin_of options)
                                              + fmin_of options))
        end rz = (Throws e, rz') -> rz' = rz)
    /\ (forall v : Q,
        match stride_or_none with
        | Some multipleOf =>
            if Qle_bool multipleOf 0 then throw MultipleOfNotPositive
            else
              bind (int (IntObject
                           {| int_min := Some (fmin_of options * factor_of multipleOf);
                              int_max := Some (fmax_of options * factor_of multipleOf);
                              int_multipleOf := None |}))
                   (fun i => ret (inject_Z i / factor_of multipleOf))
        | None => bind next (fun real => ret (real * (fmax_of options - fmin_of options)
                                              + fmin_of options))
        end rz = (Returns v, rz') -> rz' = rz \/ rz' = Randomizer.advance rz)).
  { intros [multipleOf|].
    - destruct (Qle_bool multipleOf 0).
      + split; [intros e [= _ <-]; reflexivity | intros v; discriminate].
      + unfold bind.
        destruct (int _ rz) as [[i|e0] rz0] eqn:Run;
          pose proof (int_state_after _ rz _ _ Run) as Hstate; cbv beta iota in Hstate.
        * split; [intros e; discriminate | intros v [= _ <-]; exact Hstate].
        * split; [intros e [= _ <-]; exact Hstate | intros v; discriminate].
    - unfold bind, next, ret.
      split; [intros e; discriminate | intros v [= _ <-]; right; reflexivity]. }
  unfold bind at 1.
  destruct (float_fractionDigits (float_normalize options)) as [d|].
  - destruct (float_multipleOf (float_normalize options)).
    + split; [intros e [= _ <-]; reflexivity | intros v; discriminate].
    + destruct (negb (JS.isInteger d)).
      * split; [intros e [= _ <-]; reflexivity | intros v; discriminate].
      * destruct (JS.ltb d 0).
        -- split; [intros e [= _ <-]; reflexivity | intros v; discriminate].
        -- apply Tail.
  - apply Tail.
Qed.

End FloatExtras.

(** ** [bigInt]: when it returns and when it asks for digits *)

Module BigIntExtras.

Import NumberModule BigIntClaims Samples.
Local Open Scope Z_scope.

Section WithStringModule.

Variable string_numeric : nat -> bool -> Randomizer.t -> Decimal.uint * Randomizer.t.

Lemma bigInt_reversed (options : BigIntArg) (rz : Randomizer.t) :
  bigInt_max_of options < bigInt_min_of options ->
  bigInt string_numeric options rz
  = (Throws (MaxNotLargerThanMin (bigInt_min_of options) (bigInt_max_of options)), rz).
Proof.
  intros H. unfold bigInt.
  replace (bigInt_max_of options <? bigInt_min_of options) with true
    by (symmetry; apply Z.ltb_lt; exact H).
  reflexivity.
Qed.

Lemma bigInt_bad_stride (options : BigIntArg) (rz : Randomizer.t) :
  bigInt_min_of options <= bigInt_max_of options ->
  bigInt_multipleOf_of options <= 0 ->
  bigInt string_numeric options rz = (Throws MultipleOfNotPositive, rz).
Proof.
  intros H Hm. unfold bigInt.
  replace (bigInt_max_of options <? bigInt_min_of options) with false
    by (symmetry; apply Z.ltb_ge; exact H).
  replace (bigInt_multipleOf_of options <=? 0) with true
    by (symmetry; apply Z.leb_le; exact Hm).
  reflexivity.
Qed.

(** Past the two checks. *)
Lemma bigInt_checked (options : BigIntArg) (rz : Randomizer.t) :
  bigInt_min_of options <= bigInt_max_of options ->
  0 < bigInt_multipleOf_of options ->
  let lo := bigInt_effectiveMin (bigInt_min_of options) (bigInt_multipleOf_of options) in
  let hi := bigInt_effectiveMax (bigInt_max_of options) (bigInt_multipleOf_of options) in
  bigInt string_numeric options rz
  = if lo =? hi then (Returns (lo * bigInt_multipleOf_of options), rz)
    else if hi <? lo
    then (Throws (NoSuitableBigint (bigInt_min_of options) (bigInt_max_of options)), rz)
    else
      let '(digits, rz') :=
        string_numeric (String.length (JS.toString (hi - lo + 1))) true rz in
      (Returns ((lo + Z.rem (Z.of_uint digits) (hi - lo + 1))
                * bigInt_multipleOf_of options), rz').
Proof.
  intros H Hm lo hi. unfold bigInt.
  replace (bigInt_max_of options <? bigInt_min_of options) with false
    by (symmetry; apply Z.ltb_ge; exact H).
  replace (bigInt_multipleOf_of options <=? 0) with false
    by (symmetry; apply Z.leb_gt; exact Hm).
  cbv zeta. fold lo hi.
  destruct (lo =? hi); [reflexivity|].
  destruct (hi <? lo); [reflexivity|].
  unfold bind.
  destruct (string_numeric _ true rz) as [digits rz']. reflexivity.
Qed.

(** The lattice is non-empty exactly when a multiple lies in the range. *)
Lemma bigInt_lattice_nonempty (min max m : Z) :
  0 < m ->
  (bigInt_effectiveMin min m <= bigInt_effectiveMax max m
   <-> exists k : Z, min <= k * m <= max).
Proof.
  intros Hm.
  rewrite (bigInt_effectiveMin_ceiling min m Hm), (bigInt_effectiveMax_floor max m Hm).
  set (lo := - (- min / m)). set (hi := max / m).
  assert (Hlo : min <= lo * m /\ (lo - 1) * m < min)
    by (unfold lo; Z.to_euclidean_division_equations; nia).
  assert (Hhi : hi * m <= max /\ max < (hi + 1) * m)
    by (unfold hi; Z.to_euclidean_division_equations; nia).
  split.
  - intros Hle. exists lo. nia.
  - intros [k Hk].
    assert (lo <= k) by (apply Z.lt_pred_le, (Z.mul_lt_mono_pos_r m); lia).
    assert (k <= hi) by (apply Z.lt_succ_r, (Z.mul_lt_mono_pos_r m); lia).
    lia.
Qed.

(** X7.  [bigInt] returns a value exactly when [min <= max], [multipleOf > 0]
    and a multiple of [multipleOf] lies in [[min, max]], whatever digits the
    string generator gives; a reversed range is reported first, before a
    non-positive [multipleOf] (the reverse of the order in [int]). *)
Theorem bigInt_returns_iff (options : BigIntArg) (rz : Randomizer.t) :
  ((exists (v : Z) (rz' : Randomizer.t),
       bigInt string_numeric options rz = (Returns v, rz'))
   <-> (bigInt_min_of options <= bigInt_max_of options
        /\ 0 < bigInt_multipleOf_of options
        /\ exists k : Z, bigInt_min_of options <= k * bigInt_multipleOf_of options
                         <= bigInt_max_of options))
  /\ (bigInt_max_of options < bigInt_min_of options ->
      bigInt string_numeric options rz
      = (Throws (MaxNotLargerThanMin (bigInt_min_of options) (bigInt_max_of options)),
         rz)).
Proof.
  split; [|apply bigInt_reversed].
  split.
  - intros [v [rz' Run]].
    destruct (Z.lt_ge_cases (bigInt_max_of options) (bigInt_min_of options)) as [H|H].
    { rewrite (bigInt_reversed _ _ H) in Run. discriminate. }
    destruct (Z.le_gt_cases (bigInt_multipleOf_of options) 0) as [Hm|Hm].
    { rewrite (bigInt_bad_stride _ _ H Hm) in Run. discriminate. }
    split; [exact H|]. split; [lia|].
    apply bigInt_lattice_nonempty; [lia|].
    rewrite (bigInt_checked options rz H ltac:(lia)) in Run. cbv zeta in Run.
    destruct (Z.eqb_spec
                (bigInt_effectiveMin (bigInt_min_of options) (bigInt_multipleOf_of options))
                (bigInt_effectiveMax (bigInt_max_of options) (bigInt_multipleOf_of options)))
      as [E|E]; [lia|].
    destruct (Z.ltb_spec
                (bigInt_effectiveMax (bigInt_max_of options) (bigInt_multipleOf_of options))
                (bigInt_effectiveMin (bigInt_min_of options) (bigInt_multipleOf_of options)))
      as [L|L]; [discriminate | exact L].
  - intros [H [Hm Hk]].
    apply (bigInt_lattice_nonempty _ _ _ Hm) in Hk.
    rewrite (bigInt_checked options rz H Hm). cbv zeta.
    destruct (Z.eqb_spec
                (bigInt_effectiveMin (bigInt_min_of options) (bigInt_multipleOf_of options))
                (bigInt_effectiveMax (bigInt_max_of options) (bigInt_multipleOf_of options)))
      as [E|E]; [eexists; eexists; reflexivity|].
    replace (_ <? _) with false by (symmetry; apply Z.ltb_ge; exact Hk).
    destruct (string_numeric _ true rz) as [digits rz'].
    eexists; eexists; reflexivity.
Qed.

(** X8.  When exactly one multiple of [multipleOf] lies in [[min, max]],
    [bigInt] returns it without asking the string generator for digits: the
    randomizer is where it was. *)
Theorem bigInt_single_multiple (options : BigIntArg) (rz : Randomizer.t) (k : Z) :
  0 < bigInt_multipleOf_of options ->
  bigInt_min_of options <= k * bigInt_multipleOf_of options <= bigInt_max_of options ->
  (forall k' : Z,
      bigInt_min_of options <= k' * bigInt_multipleOf_of options <= bigInt_max_of options ->
      k' = k) ->
  bigInt string_numeric options rz = (Returns (k * bigInt_multipleOf_of options), rz).
Proof.
  intros Hm Hk Huniq.
  assert (H : bigInt_min_of options <= bigInt_max_of options) by lia.
  rewrite (bigInt_checked options rz H Hm). cbv zeta.
  pose proof (bigInt_effectiveMin_ceiling (bigInt_min_of options) _ Hm) as Elo.
  pose proof (bigInt_effectiveMax_floor (bigInt_max_of options) _ Hm) as Ehi.
  rewrite Elo, Ehi.
  set (min := bigInt_min_of options) in *.
  set (max := bigInt_max_of options) in *.
  set (m := bigInt_multipleOf_of options) in *.
  set (lo := - (- min / m)). set (hi := max / m).
  assert (Hlo : min <= lo * m /\ (lo - 1) * m < min)
    by (unfold lo; Z.to_euclidean_division_equations; nia).
  assert (Hhi : hi * m <= max /\ max < (hi + 1) * m)
    by (unfold hi; Z.to_euclidean_division_equations; nia).
  assert (lo <= k) by (apply Z.lt_pred_le, (Z.mul_lt_mono_pos_r m); lia).
  assert (k <= hi) by (apply Z.lt_succ_r, (Z.mul_lt_mono_pos_r m); lia).
  assert (lo = k) by (apply Huniq; nia).
  assert (hi = k) by (apply Huniq; nia).
  replace (lo =? hi) with true by (symmetry; apply Z.eqb_eq; lia).
  congruence.
Qed.

End WithStringModule.

Lemma bigInt_single_multiple_witness :
  bigInt sevens big_single rz_half = (Returns (2 * 7), rz_half).
Proof.
  apply (bigInt_single_multiple sevens big_single rz_half 2).
  - reflexivity.
  - split; discriminate.
  - intros k'. change (bigInt_min_of big_single) with 10.
    change (bigInt_max_of big_single) with 20.
    change (bigInt_multipleOf_of big_single) with 7. lia.
Defined.

End BigIntExtras.

(** ** The numerals [romanNumeral] writes *)

Module RomanExtras.

Import NumberModule JSFacts IntFacts IntExtras Decode Samples.
Local Open Scope Z_scope.

Lemma numerals_checked :
  forallb (fun n =>
             (romanDecode (encode n) =? n)
             && all isRomanSymbol (encode n)
             && negb (four_in_a_row (encode n))
             && (1 <=? String.length (encode n))%nat
             && (String.length (encode n) <=? 15)%nat)
          (map Z.of_nat (seq 1 3999)) = true.
Proof.
  vm_compute. reflexivity.
Qed.

Lemma numeral_checked (n : Z) :
  1 <= n <= 3999 ->
  romanDecode (encode n) = n
  /\ all isRomanSymbol (encode n) = true
  /\ four_in_a_row (encode n) = false
  /\ (1 <= String.length (encode n) <= 15)%nat.
Proof.
  intros Hn. pose proof numerals_checked as H.
  rewrite forallb_forall in H.
  assert (Hin : In n (map Z.of_nat (seq 1 3999))).
  { rewrite <- (Z2Nat.id n) by lia. apply in_map, in_seq. lia. }
  specialize (H n Hin).
  rewrite !andb_true_iff, Z.eqb_eq, negb_true_iff, !Nat.leb_le in H.
  tauto.
Qed.

(** X10.  For every [n] from 1 to 3999 the numeral the loop writes reads back
    as [n] under the usual rule (a symbol smaller than its successor is
    subtracted); it uses only the symbols I, V, X, L, C, D, M, never the same
    symbol four times in a row, and has between 1 and 15 symbols.  Different
    numbers get different numerals. *)
Theorem roman_encoding_reads_back (n : Z) :
  1 <= n <= 3999 ->
  romanDecode (encode n) = n
  /\ all isRomanSymbol (encode n) = true
  /\ four_in_a_row (encode n) = false
  /\ (1 <= String.length (encode n) <= 15)%nat
  /\ (forall n' : Z, 1 <= n' <= 3999 -> encode n' = encode n -> n' = n).
Proof.
  intros Hn.
  destruct (numeral_checked n Hn) as [D [A [F L]]].
  repeat split; try assumption; try apply L.
  intros n' Hn' E.
  destruct (numeral_checked n' Hn') as [D' _].
  rewrite <- D, <- D', E. reflexivity.
Qed.

Lemma roman_encoding_reads_back_witness :
  romanDecode (encode 1994) = 1994
  /\ all isRomanSymbol (encode 1994) = true
  /\ four_in_a_row (encode 1994) = false
  /\ (1 <= String.length (encode 1994) <= 15)%nat
  /\ (forall n' : Z, 1 <= n' <= 3999 -> encode n' = encode 1994 -> n' = 1994).
Proof.
  apply (roman_encoding_reads_back 1994). lia.
Defined.

End RomanExtras.

(** ** [port], [colorFromBase], [color], [mac] *)

Module InternetExtras.

Import NumberModule InternetModule JSFacts IntFacts IntExtras RomanClaims.
Import Decode Samples.
Local Open Scope Z_scope.

Lemma valid_advance (rz : Randomizer.t) :
  Randomizer.valid rz -> Randomizer.valid (Randomizer.advance rz).
Proof.
  intros H n. exact (H n).
Qed.

(** An integer drawn over [[0, top]] with the default stride. *)
Lemma int_zero_to (options : IntArg) (top : Z) (rz : Randomizer.t) :
  min_of options = 0%Q ->
  max_of options = inject_Z top ->
  multipleOf_of options = 1%Q ->
  1 <= top ->
  exists n : Z,
    int options rz = (Returns n, Randomizer.advance rz)
    /\ (Randomizer.valid rz -> 0 <= n <= top).
Proof.
  intros Emin Emax Em Htop.
  assert (Hint : JS.isInteger (multipleOf_of options) = true) by (rewrite Em; reflexivity).
  assert (Hpos : (0 < multipleOf_of options)%Q) by (rewrite Em; reflexivity).
  assert (Elo : effectiveMin (min_of options) (multipleOf_of options) = 0)
    by (rewrite Emin, Em; reflexivity).
  assert (Ehi : effectiveMax (max_of options) (multipleOf_of options) = top)
    by (rewrite Emax, Em; apply (effective_bounds_of_integer top)).
  destruct (int_cases options rz Hint Hpos) as [E _ | L _ | L Run]; try lia.
  eexists. split; [exact Run|].
  intros Hrz. destruct (Hrz (Randomizer.position rz)) as [R0 R1].
  pose proof (scaled_draw_between (Randomizer.peek rz) _ _ R0 R1 L) as Hj.
  rewrite Elo, Ehi in Hj. rewrite Elo, Ehi.
  rewrite Em. change (Qfloor 1) with 1. rewrite Z.mul_1_r. exact Hj.
Qed.

(** X12.  [port] never throws: it draws once and returns an integer from 0 to
    65535, both included. *)
Theorem port_in_range (rz : Randomizer.t) :
  Randomizer.valid rz ->
  exists p : Z,
    port rz = (Returns p, Randomizer.advance rz) /\ 0 <= p <= 65535.
Proof.
  intros Hrz.
  destruct (int_zero_to (IntNumber 65535) 65535 rz eq_refl eq_refl eq_refl ltac:(lia))
    as [p [Run Hp]].
  exists p. split; [exact Run | exact (Hp Hrz)].
Qed.

Lemma port_in_range_witness :
  exists p : Z,
    port rz_half = (Returns p, Randomizer.advance rz_half) /\ 0 <= p <= 65535.
Proof.
  apply (port_in_range rz_half).
  intros n. split; [discriminate | reflexivity].
Defined.

Lemma bytes_checked :
  forallb (fun b =>
             String.eqb (JS.padStart 2 "0" (JS.toStringRadix 16 b)) (byteHex b)
             && all (isDigitOf 16) (byteHex b))
          (map Z.of_nat (seq 0 256)) = true.
Proof.
  vm_compute. reflexivity.
Qed.

(** A byte is written with two hexadecimal digits, zero-padded. *)
Lemma padded_byte (b : Z) :
  0 <= b <= 255 ->
  JS.padStart 2 "0" (JS.toStringRadix 16 b) = byteHex b
  /\ all (isDigitOf 16) (byteHex b) = true.
Proof.
  intros Hb. pose proof bytes_checked as H.
  rewrite forallb_forall in H.
  assert (Hin : In b (map Z.of_nat (seq 0 256))).
  { rewrite <- (Z2Nat.id b) by lia. apply in_map, in_seq. lia. }
  specialize (H b Hin). rewrite andb_true_iff, String.eqb_eq in H. exact H.
Qed.

Lemma colorFromBase_run (base : Q) (rz : Randomizer.t) :
  Randomizer.valid rz ->
  (0 <= base)%Q -> (base <= 255)%Q ->
  exists channel : Z,
    colorFromBase base rz = (Returns (byteHex channel), Randomizer.advance rz)
    /\ 0 <= channel <= 255
    /\ Qfloor (base / 2) <= channel <= Qfloor ((256 + base) / 2).
Proof.
  intros Hrz H0 H255.
  destruct (int_zero_to (IntNumber 256) 256 rz eq_refl eq_refl eq_refl ltac:(lia))
    as [n [Run Hn]].
  specialize (Hn Hrz).
  assert (Hn0 : (inject_Z 0 <= inject_Z n)%Q) by (rewrite <- Zle_Qle; lia).
  assert (Hn1 : (inject_Z n <= inject_Z 256)%Q) by (rewrite <- Zle_Qle; lia).
  change (inject_Z 0) with 0%Q in Hn0. change (inject_Z 256) with 256%Q in Hn1.
  set (channel := Qfloor ((inject_Z n + base) / 2)).
  assert (Hlo : Qfloor (base / 2) <= channel).
  { apply Qfloor_resp_le. apply Qmult_le_compat_r; [lra | discriminate]. }
  assert (Hhi : channel <= Qfloor ((256 + base) / 2)).
  { apply Qfloor_resp_le. apply Qmult_le_compat_r; [lra | discriminate]. }
  assert (H0' : 0 <= Qfloor (base / 2)).
  { apply floor_ge. change (inject_Z 0) with 0%Q.
    apply Qle_shift_div_l; [reflexivity | lra]. }
  assert (H255' : Qfloor ((256 + base) / 2) <= 255).
  { assert (C : Qfloor ((256 + base) / 2) < 256); [|lia].
    assert (D : (inject_Z (Qfloor ((256 + base) / 2)) < inject_Z 256)%Q).
    { eapply Qle_lt_trans; [apply Qfloor_le|].
      apply Qlt_shift_div_r; [reflexivity|].
      change (inject_Z 256) with 256%Q. lra. }
    rewrite <- Zlt_Qlt in D. lia. }
  exists channel. unfold colorFromBase, bind. rewrite Run. fold channel.
  unfold ret. rewrite (proj1 (padded_byte channel ltac:(lia))).
  split; [reflexivity|]. lia.
Qed.



(** X14.  With the three bases from 0 to 255 (0 when left out), [color] draws
    three times and returns ['#'] followed by the two hexadecimal digits of
    the red, green and blue bytes, in that order: seven characters. *)
Theorem color_css_hex (options : ColorOptions) (rz : Randomizer.t) :
  Randomizer.valid rz ->
  (0 <= JS.default 0 (redBase options) /\ JS.default 0 (redBase options) <= 255)%Q ->
  (0 <= JS.default 0 (greenBase options) /\ JS.default 0 (greenBase options) <= 255)%Q ->
  (0 <= JS.default 0 (blueBase options) /\ JS.default 0 (blueBase options) <= 255)%Q ->
  exists red green blue : Z,
    color options rz
    = (Returns ("#" ++ byteHex red ++ byteHex green ++ byteHex blue)%string,
       Randomizer.advance (Randomizer.advance (Randomizer.advance rz)))
    /\ 0 <= red <= 255 /\ 0 <= green <= 255 /\ 0 <= blue <= 255
    /\ String.length ("#" ++ byteHex red ++ byteHex green ++ byteHex blue) = 7%nat.
Proof.
  intros Hrz [R0 R1] [G0 G1] [B0 B1].
  destruct (colorFromBase_run _ rz Hrz R0 R1) as [red [RunR [Hr _]]].
  destruct (colorFromBase_run _ _ (valid_advance _ Hrz) G0 G1) as [green [RunG [Hg _]]].
  destruct (colorFromBase_run _ _ (valid_advance _ (valid_advance _ Hrz)) B0 B1)
    as [blue [RunB [Hb _]]].
  exists red, green, blue. unfold color, bind. rewrite RunR, RunG, RunB.
  repeat split; try reflexivity; lia.
Qed.

Lemma color_css_hex_witness :
  exists red green blue : Z,
    color warm_grey rz_half
    = (Returns ("#" ++ byteHex red ++ byteHex green ++ byteHex blue)%string,
       Randomizer.advance (Randomizer.advance (Randomizer.advance rz_half)))
    /\ 0 <= red <= 255 /\ 0 <= green <= 255 /\ 0 <= blue <= 255
    /\ String.length ("#" ++ byteHex red ++ byteHex green ++ byteHex blue) = 7%nat.
Proof.
  apply (color_css_hex warm_grey rz_half).
  - intros n. split; [discriminate | reflexivity].
  - split; discriminate.
  - split; discriminate.
  - split; discriminate.
Defined.

(** One digit of [mac]: [hex(15)]. *)
Lemma hex_15_run (rz : Randomizer.t) :
  Randomizer.valid rz ->
  exists d : Z,
    hex (RadixNumber 15) rz
    = (Returns (String (JS.digitChar d) EmptyString), Randomizer.advance rz)
    /\ 0 <= d <= 15.
Proof.
  intros Hrz.
  destruct (int_zero_to (radix_range 15 (RadixNumber 15)) 15 rz
              eq_refl eq_refl eq_refl ltac:(lia)) as [d [Run Hd]].
  specialize (Hd Hrz).
  exists d. split; [|exact Hd].
  unfold hex, bind. rewrite Run. unfold ret. f_equal. f_equal.
  assert (Hc : d = 0 \/ d = 1 \/ d = 2 \/ d = 3 \/ d = 4 \/ d = 5 \/ d = 6 \/ d = 7
               \/ d = 8 \/ d = 9 \/ d = 10 \/ d = 11 \/ d = 12 \/ d = 13 \/ d = 14
               \/ d = 15) by lia.
  repeat (destruct Hc as [-> | Hc]; [reflexivity|]). subst d. reflexivity.
Qed.

Lemma byteHex_of_digits (d0 d1 : Z) :
  0 <= d0 <= 15 -> 0 <= d1 <= 15 ->
  String (JS.digitChar d0) (String (JS.digitChar d1) EmptyString)
  = byteHex (d0 * 16 + d1)
  /\ 0 <= d0 * 16 + d1 <= 255.
Proof.
  intros H0 H1. unfold byteHex. split; [|lia].
  replace ((d0 * 16 + d1) / 16) with d0
    by (Z.to_euclidean_division_equations; lia).
  replace ((d0 * 16 + d1) mod 16) with d1
    by (Z.to_euclidean_division_equations; lia).
  reflexivity.
Qed.

(** The last [groups] pairs of digits of the loop. *)
Lemma mac_loop_groups (separator : string) (groups : nat) :
  (groups <= 6)%nat ->
  forall (mac : string) (rz : Randomizer.t),
    Randomizer.valid rz ->
    exists bytes : list Z,
      mac_loop (2 * groups) (12 - 2 * Z.of_nat groups) separator mac rz
      = (Returns (mac ++ JS.join separator (map byteHex bytes))%string,
         Nat.iter (2 * groups) Randomizer.advance rz)
      /\ List.length bytes = groups
      /\ forallb is_byte bytes = true.
Proof.
  induction groups as [|groups IH]; intros Hg mac rz Hrz.
  - exists []. cbn. rewrite append_empty_r. repeat split.
  - replace (2 * S groups)%nat with (S (S (2 * groups))) by lia.
    set (i := 12 - 2 * Z.of_nat (S groups)).
    assert (Hi : 0 <= i <= 10 /\ i + 1 + 1 = 12 - 2 * Z.of_nat groups)
      by (unfold i; lia).
    assert (Heven : (Z.rem i 2 =? 1) = false).
    { apply Z.eqb_neq. unfold i. Z.to_euclidean_division_equations. lia. }
    assert (Hodd : (Z.rem (i + 1) 2 =? 1) = true).
    { apply Z.eqb_eq. unfold i. Z.to_euclidean_division_equations. lia. }
    destruct (hex_15_run rz Hrz) as [d0 [Run0 Hd0]].
    destruct (hex_15_run _ (valid_advance _ Hrz)) as [d1 [Run1 Hd1]].
    destruct (byteHex_of_digits d0 d1 Hd0 Hd1) as [Ebyte Hbyte].
    cbn [mac_loop]. unfold bind at 1. rewrite Run0.
    unfold bind at 1. rewrite Run1.
    rewrite Heven, Hodd. cbn [andb].
    destruct Hi as [Hi Enext]. rewrite Enext.
    set (mac' := if negb (i + 1 =? 11) then _ else _).
    destruct (IH ltac:(lia) mac' (Randomizer.advance (Randomizer.advance rz))
                 (valid_advance _ (valid_advance _ Hrz)))
      as [bytes [Run [Hlen Hbytes]]].
    unfold mac' in *. clear mac'.
    exists ((d0 * 16 + d1) :: bytes).
    rewrite Run.
    split; [|split].
    + f_equal.
      * cbn [map]. rewrite <- Ebyte.
        destruct (Z.eqb_spec (i + 1) 11) as [E|E]; cbn [negb].
        -- assert (groups = O) by lia. subst groups.
           destruct bytes; [|discriminate].
           cbn [map JS.join]. rewrite !append_associative, append_empty_r.
           reflexivity.
        -- destruct bytes as [|b bytes]; [simpl in Hlen; lia|].
           cbn [map JS.join]. rewrite !append_associative. reflexivity.
      * rewrite !Nat.iter_succ_r. reflexivity.
    + simpl. rewrite Hlen. reflexivity.
    + cbn [forallb]. rewrite Hbytes.
      unfold is_byte.
      replace (0 <=? d0 * 16 + d1) with true by (symmetry; apply Z.leb_le; lia).
      replace (d0 * 16 + d1 <=? 255) with true by (symmetry; apply Z.leb_le; lia).
      reflexivity.
Qed.

Lemma separator_of_acceptable (options : MacArg) :
  In (separator_of options) acceptableSeparators.
Proof.
  unfold separator_of.
  set (given := match options with
                | MacString s => s
                | MacObject separator => JS.default ":"%string separator
                end).
  destruct (existsb (String.eqb given) acceptableSeparators) eqn:E; cbn [negb].
  - apply existsb_exists in E. destruct E as [s [Hin Es]].
    apply String.eqb_eq in Es. subst s. exact Hin.
  - left. reflexivity.
Qed.

(** X15.  [mac] never throws, whatever the separator asked for: it draws twelve
    times and returns six bytes, each written with two lower-case hexadecimal
    digits, joined by the separator in force, which is the one given when that
    is [':'], ['-'] or [''], and [':'] in every other case; the address has
    [12 + 5 * separator.length] characters. *)
Theorem mac_six_bytes (options : MacArg) (rz : Randomizer.t) :
  Randomizer.valid rz ->
  exists bytes : list Z,
    mac options rz
    = (Returns (JS.join (separator_of options) (map byteHex bytes)),
       Nat.iter 12 Randomizer.advance rz)
    /\ List.length bytes = 6%nat
    /\ forallb is_byte bytes = true
    /\ In (separator_of options) acceptableSeparators
    /\ String.length (JS.join (separator_of options) (map byteHex bytes))
       = (12 + 5 * String.length (separator_of options))%nat.
Proof.
  intros Hrz.
  destruct (mac_loop_groups (separator_of options) 6 ltac:(lia) EmptyString rz Hrz)
    as [bytes [Run [Hlen Hbytes]]].
  exists bytes. unfold mac.
  change (mac_loop 12 0) with (mac_loop (2 * 6) (12 - 2 * Z.of_nat 6)).
  rewrite Run. cbn [append].
  split; [reflexivity|]. split; [exact Hlen|]. split; [exact Hbytes|].
  split; [apply separator_of_acceptable|].
  destruct bytes as [|b1 [|b2 [|b3 [|b4 [|b5 [|b6 [|]]]]]]]; try discriminate.
  destruct (separator_of_acceptable options) as [<- | [<- | [<- | []]]]; reflexivity.
Qed.

Lemma mac_six_bytes_witness :
  exists bytes : list Z,
    mac (MacString "-") rz_half
    = (Returns (JS.join "-" (map byteHex bytes)), Nat.iter 12 Randomizer.advance rz_half)
    /\ List.length bytes = 6%nat
    /\ forallb is_byte bytes = true
    /\ In "-"%string acceptableSeparators
    /\ String.length (JS.join "-" (map byteHex bytes)) = 17%nat.
Proof.
  apply (mac_six_bytes (MacString "-") rz_half).
  intros n. split; [discriminate | reflexivity].
Defined.

(** X16.  A separator other than [':'], ['-'] and [''] is replaced by [':']:
    [mac] then behaves exactly as with no separator given. *)
Theorem mac_separator_fallback (separator : string) (rz : Randomizer.t) :
  ~ In separator acceptableSeparators ->
  mac (MacString separator) rz = mac (MacObject None) rz
  /\ mac (MacObject (Some separator)) rz = mac (MacObject None) rz.
Proof.
  intros Hnot.
  assert (E : existsb (String.eqb separator) acceptableSeparators = false).
  { destruct (existsb (String.eqb separator) acceptableSeparators) eqn:E; [|reflexivity].
    exfalso. apply Hnot. apply existsb_exists in E. destruct E as [s [Hin Es]].
    apply String.eqb_eq in Es. subst s. exact Hin. }
  unfold mac, separator_of. cbn [JS.default]. rewrite E. split; reflexivity.
Qed.

Lemma mac_separator_fallback_witness :
  mac (MacString ".") rz_half = mac (MacObject None) rz_half
  /\ mac (MacObject (Some "."%string)) rz_half = mac (MacObject None) rz_half.
Proof.
  apply (mac_separator_fallback "." rz_half).
  intros [H | [H | [H | []]]]; discriminate.
Defined.

End InternetExtras.

(** ** [isValidDomainWordSlug] and the pattern of [ipv4] *)

Module PatternExtras.

Import InternetModule JSFacts RomanClaims Decode Samples.
Local Open Scope Z_scope.

Lemma star_spec (p : ascii -> bool) (k : string -> bool) (s : string) :
  star p k s = true
  <-> exists pre post : string,
        s = (pre ++ post)%string /\ all p pre = true /\ k post = true.
Proof.
  induction s as [|c s IH].
  - cbn [star]. split.
    + intros H. exists EmptyString, EmptyString. repeat split. exact H.
    + intros [pre [post [E [_ H]]]].
      destruct pre; [|discriminate]. cbn in E. subst post. exact H.
  - cbn [star]. rewrite orb_true_iff, andb_true_iff, IH. split.
    + intros [[Hc [pre [post [E [Hpre Hpost]]]]] | H].
      * exists (String c pre), post. cbn. rewrite E, Hc, Hpre. repeat split. exact Hpost.
      * exists EmptyString, (String c s). repeat split. exact H.
    + intros [pre [post [E [Hpre Hpost]]]].
      destruct pre as [|c' pre].
      * right. cbn in E. subst post. exact Hpost.
      * left. cbn in E. injection E as <- ->.
        cbn in Hpre. apply andb_true_iff in Hpre. destruct Hpre as [Hc Hpre].
        split; [exact Hc|]. exists pre, post. repeat split; assumption.
Qed.

(** X17.  [isValidDomainWordSlug] accepts exactly the strings made of a
    letter, then any number of letters and hyphens, then a letter (ASCII
    letters of either case): at least two characters, no digit, no hyphen at
    either end. *)
Theorem isValidDomainWordSlug_shape (slug : string) :
  isValidDomainWordSlug slug = true
  <-> exists (first : ascii) (middle : string) (last : ascii),
        slug = String first (middle ++ String last EmptyString)
        /\ JS.isLetter first = true
        /\ all isLetterOrDash middle = true
        /\ JS.isLetter last = true.
Proof.
  unfold isValidDomainWordSlug. split.
  - destruct slug as [|first rest]; [discriminate|].
    cbn [class]. rewrite andb_true_iff, star_spec.
    intros [Hfirst [middle [post [E [Hmid Hpost]]]]].
    destruct post as [|last post]; [discriminate|].
    cbn [class] in Hpost. apply andb_true_iff in Hpost. destruct Hpost as [Hlast Hend].
    destruct post; [|discriminate].
    exists first, middle, last. subst rest. repeat split; assumption.
  - intros [first [middle [last [-> [Hfirst [Hmid Hlast]]]]]].
    cbn [class]. rewrite Hfirst. cbn [andb].
    apply star_spec. exists middle, (String last EmptyString).
    repeat split; [exact Hmid|]. cbn. rewrite Hlast. reflexivity.
Qed.

Lemma digits_upto_spec (n : nat) (k : string -> bool) :
  forall s : string,
    digits_upto n k s = true
    <-> exists ds rest : string,
          s = (ds ++ rest)%string /\ isDigits n ds = true /\ k rest = true.
Proof.
  unfold isDigits.
  induction n as [|n IH]; intros s.
  - split; [destruct s; discriminate|].
    intros [ds [rest [_ [H _]]]].
    rewrite !andb_true_iff, !Nat.leb_le in H. lia.
  - destruct s as [|c s].
    + split; [discriminate|].
      intros [ds [rest [E [H _]]]].
      destruct ds; [|discriminate].
      rewrite !andb_true_iff, !Nat.leb_le in H. simpl in H. lia.
    + cbn [digits_upto]. rewrite andb_true_iff, orb_true_iff, IH. split.
      * intros [Hc [[ds [rest [E [H Hk]]]] | Hk]].
        -- exists (String c ds), rest. subst s. split; [reflexivity|].
           split; [|exact Hk].
           rewrite !andb_true_iff, !Nat.leb_le in H |- *. cbn [all String.length].
           rewrite Hc. cbn [andb]. repeat split; try lia. apply H.
        -- exists (String c EmptyString), s. split; [reflexivity|].
           split; [|exact Hk].
           cbn. rewrite Hc. reflexivity.
      * intros [ds [rest [E [H Hk]]]].
        rewrite !andb_true_iff, !Nat.leb_le in H.
        destruct ds as [|c' ds]; [simpl in H; lia|].
        cbn in E. injection E as <- ->.
        destruct H as [[Hlo Hhi] Hall]. cbn [all] in Hall.
        apply andb_true_iff in Hall. destruct Hall as [Hc Hall].
        split; [exact Hc|].
        destruct ds as [|c'' ds].
        -- right. exact Hk.
        -- left. exists (String c'' ds), rest. split; [reflexivity|].
           split; [|exact Hk].
           rewrite !andb_true_iff, !Nat.leb_le. cbn [String.length] in *.
           repeat split; try lia. exact Hall.
Qed.

Lemma literal_spec (c : ascii) (k : string -> bool) (s : string) :
  literal c k s = true <-> exists rest : string, s = String c rest /\ k rest = true.
Proof.
  destruct s as [|c' s]; cbn [literal].
  - split; [discriminate | intros [rest [E _]]; discriminate].
  - rewrite andb_true_iff, Ascii.eqb_eq. split.
    + intros [-> Hk]. exists s. split; [reflexivity | exact Hk].
    + intros [rest [[= -> ->] Hk]]. split; [reflexivity | exact Hk].
Qed.

Lemma end_of_input_spec (s : string) : end_of_input s = true <-> s = EmptyString.
Proof.
  destruct s; cbn; split; congruence.
Qed.

(** The pattern accepts exactly the texts [d1.d2.d3.d4/p]. *)
Lemma cidrPattern_spec (s : string) :
  cidrPattern_test s = true
  <-> exists d1 d2 d3 d4 p : string,
        s = cidr_text d1 d2 d3 d4 p
        /\ isDigits 3 d1 = true /\ isDigits 3 d2 = true
        /\ isDigits 3 d3 = true /\ isDigits 3 d4 = true
        /\ isDigits 2 p = true.
Proof.
  unfold cidrPattern_test, cidr_text. split.
  - intros H.
    apply digits_upto_spec in H. destruct H as [d1 [r1 [E1 [H1 H]]]].
    apply literal_spec in H. destruct H as [r1' [-> H]].
    apply digits_upto_spec in H. destruct H as [d2 [r2 [E2 [H2 H]]]].
    apply literal_spec in H. destruct H as [r2' [-> H]].
    apply digits_upto_spec in H. destruct H as [d3 [r3 [E3 [H3 H]]]].
    apply literal_spec in H. destruct H as [r3' [-> H]].
    apply digits_upto_spec in H. destruct H as [d4 [r4 [E4 [H4 H]]]].
    apply literal_spec in H. destruct H as [r4' [-> H]].
    apply digits_upto_spec in H. destruct H as [p [r5 [E5 [H5 H]]]].
    apply end_of_input_spec in H. subst r5.
    exists d1, d2, d3, d4, p. subst.
    rewrite (append_empty_r p). repeat split; assumption.
  - intros [d1 [d2 [d3 [d4 [p [-> [H1 [H2 [H3 [H4 H5]]]]]]]]]].
    apply digits_upto_spec. exists d1. eexists. split; [reflexivity|].
    split; [exact H1|].
    apply literal_spec. eexists. split; [reflexivity|].
    apply digits_upto_spec. exists d2. eexists. split; [reflexivity|].
    split; [exact H2|].
    apply literal_spec. eexists. split; [reflexivity|].
    apply digits_upto_spec. exists d3. eexists. split; [reflexivity|].
    split; [exact H3|].
    apply literal_spec. eexists. split; [reflexivity|].
    apply digits_upto_spec. exists d4. eexists. split; [reflexivity|].
    split; [exact H4|].
    apply literal_spec. eexists. split; [reflexivity|].
    apply digits_upto_spec. exists p, EmptyString.
    split; [symmetry; apply append_empty_r|]. split; [exact H5 | reflexivity].
Qed.

(** Splitting at a separator that the first piece does not hold. *)
Lemma split_first (sep : ascii) (x y : string) :
  all (fun c => negb (Ascii.eqb c sep)) x = true ->
  JS.split sep (x ++ String sep y) = x :: JS.split sep y.
Proof.
  induction x as [|c x IH]; intros H.
  - cbn. rewrite Ascii.eqb_refl. reflexivity.
  - cbn [all] in H. apply andb_true_iff in H. destruct H as [Hc Hx].
    apply negb_true_iff in Hc.
    cbn [append JS.split]. rewrite Hc, (IH Hx). reflexivity.
Qed.

Lemma split_last (sep : ascii) (x : string) :
  all (fun c => negb (Ascii.eqb c sep)) x = true ->
  JS.split sep x = [x].
Proof.
  induction x as [|c x IH]; intros H.
  - reflexivity.
  - cbn [all] in H. apply andb_true_iff in H. destruct H as [Hc Hx].
    apply negb_true_iff in Hc.
    cbn [JS.split]. rewrite Hc, (IH Hx). reflexivity.
Qed.

Lemma all_impl (p q : ascii -> bool) (s : string) :
  (forall c, p c = true -> q c = true) -> all p s = true -> all q s = true.
Proof.
  intros Hpq. induction s as [|c s IH]; [reflexivity|].
  cbn [all]. rewrite !andb_true_iff. intros [Hc Hs].
  split; [apply Hpq, Hc | apply IH, Hs].
Qed.

Lemma all_app (p : ascii -> bool) (x y : string) :
  all p (x ++ y) = all p x && all p y.
Proof.
  induction x as [|c x IH]; [reflexivity|].
  cbn [append all]. rewrite IH, andb_assoc. reflexivity.
Qed.

Lemma digit_is_not (sep : ascii) :
  JS.isDigit sep = false ->
  forall c, JS.isDigit c = true -> negb (Ascii.eqb c sep) = true.
Proof.
  intros Hsep c Hc. apply negb_true_iff.
  destruct (Ascii.eqb_spec c sep) as [->|]; [congruence | reflexivity].
Qed.

Lemma isDigits_all (n : nat) (s : string) :
  isDigits n s = true -> all JS.isDigit s = true /\ (1 <= String.length s <= n)%nat.
Proof.
  unfold isDigits. rewrite !andb_true_iff, !Nat.leb_le. tauto.
Qed.

(** The value of a string of digits. *)
Lemma parseDigits_bounds (s : string) :
  all JS.isDigit s = true ->
  forall acc : Z,
    acc * 10 ^ Z.of_nat (String.length s) <= JS.parseDigits acc s
    < (acc + 1) * 10 ^ Z.of_nat (String.length s).
Proof.
  induction s as [|c s IH]; intros H acc.
  - cbn. lia.
  - cbn [all] in H. apply andb_true_iff in H. destruct H as [Hc Hs].
    cbn [JS.parseDigits String.length].
    specialize (IH Hs (acc * 10 + JS.digitValue c)).
    rewrite Nat2Z.inj_succ, Z.pow_succ_r by lia.
    assert (Hd : 0 <= JS.digitValue c <= 9).
    { unfold JS.isDigit in Hc. apply andb_true_iff in Hc.
      rewrite !Nat.leb_le in Hc. unfold JS.digitValue. lia. }
    assert (0 < 10 ^ Z.of_nat (String.length s)) by (apply Z.pow_pos_nonneg; lia).
    nia.
Qed.

Lemma number_below (n : nat) (s : string) :
  isDigits n s = true -> 0 <= JS.parseDigits 0 s < 10 ^ Z.of_nat n.
Proof.
  intros H. destruct (isDigits_all n s H) as [Hall Hlen].
  pose proof (parseDigits_bounds s Hall 0) as B.
  assert (10 ^ Z.of_nat (String.length s) <= 10 ^ Z.of_nat n)
    by (apply Z.pow_le_mono_r; lia).
  lia.
Qed.

(** X18.  [ipv4] accepts exactly the blocks written [d1.d2.d3.d4/p] with one
    to three decimal digits for each [d] and one or two for [p]; any other
    string makes it throw "Invalid CIDR block provided" without a draw.  From
    an accepted block it reads the four numbers and the prefix as they are
    written, so each octet read is at most 999 and the prefix at most 99. *)
Theorem ipv4_block_syntax (cidrBlock : string) (rz : Randomizer.t) :
  (cidrPattern_test cidrBlock = true
   <-> exists d1 d2 d3 d4 p : string,
         cidrBlock = cidr_text d1 d2 d3 d4 p
         /\ isDigits 3 d1 = true /\ isDigits 3 d2 = true
         /\ isDigits 3 d3 = true /\ isDigits 3 d4 = true
         /\ isDigits 2 p = true)
  /\ (cidrPattern_test cidrBlock = false ->
      ipv4 (in_block cidrBlock) rz = (Throws (InvalidCidrBlock cidrBlock), rz))
  /\ (forall d1 d2 d3 d4 p : string,
         cidrBlock = cidr_text d1 d2 d3 d4 p ->
         isDigits 3 d1 = true -> isDigits 3 d2 = true ->
         isDigits 3 d3 = true -> isDigits 3 d4 = true ->
         isDigits 2 p = true ->
         rawOctets_of cidrBlock = [JS.Number d1; JS.Number d2; JS.Number d3; JS.Number d4]
         /\ subnet_of cidrBlock = p
         /\ Forall (fun o => 0 <= o <= 999) (rawOctets_of cidrBlock)
         /\ 0 <= JS.parseInt (subnet_of cidrBlock) <= 99).
Proof.
  split; [apply cidrPattern_spec|]. split.
  { intros H. unfold ipv4. change (cidrBlock_of (in_block cidrBlock)) with cidrBlock.
    rewrite H. reflexivity. }
  intros d1 d2 d3 d4 p -> H1 H2 H3 H4 H5.
  destruct (isDigits_all _ _ H1) as [A1 _]. destruct (isDigits_all _ _ H2) as [A2 _].
  destruct (isDigits_all _ _ H3) as [A3 _]. destruct (isDigits_all _ _ H4) as [A4 _].
  destruct (isDigits_all _ _ H5) as [A5 _].
  assert (Dslash := digit_is_not "/" eq_refl).
  assert (Ddot := digit_is_not "." eq_refl).
  assert (Etext : ipText_of (cidr_text d1 d2 d3 d4 p)
                  = (d1 ++ "." ++ d2 ++ "." ++ d3 ++ "." ++ d4)%string
                  /\ subnet_of (cidr_text d1 d2 d3 d4 p) = p).
  { unfold ipText_of, subnet_of, cidr_text.
    replace (d1 ++ "." ++ d2 ++ "." ++ d3 ++ "." ++ d4 ++ "/" ++ p)%string
      with ((d1 ++ "." ++ d2 ++ "." ++ d3 ++ "." ++ d4) ++ String "/" p)%string
      by (rewrite !append_associative; reflexivity).
    rewrite split_first, split_last.
    - split; reflexivity.
    - apply (all_impl _ _ _ Dslash A5).
    - rewrite !all_app.
      rewrite (all_impl _ _ _ Dslash A1), (all_impl _ _ _ Dslash A2),
        (all_impl _ _ _ Dslash A3), (all_impl _ _ _ Dslash A4).
      reflexivity. }
  destruct Etext as [Eip Esub].
  assert (Eraw : rawOctets_of (cidr_text d1 d2 d3 d4 p)
                 = [JS.Number d1; JS.Number d2; JS.Number d3; JS.Number d4]).
  { unfold rawOctets_of. rewrite Eip.
    change (d1 ++ "." ++ d2 ++ "." ++ d3 ++ "." ++ d4)%string
      with (d1 ++ String "." (d2 ++ String "." (d3 ++ String "." d4)))%string.
    rewrite !split_first, split_last; try reflexivity.
    - apply (all_impl _ _ _ Ddot A4).
    - apply (all_impl _ _ _ Ddot A3).
    - apply (all_impl _ _ _ Ddot A2).
    - apply (all_impl _ _ _ Ddot A1). }
  split; [exact Eraw|]. split; [exact Esub|]. split.
  - rewrite Eraw. unfold JS.Number.
    pose proof (number_below 3 d1 H1). pose proof (number_below 3 d2 H2).
    pose proof (number_below 3 d3 H3). pose proof (number_below 3 d4 H4).
    change (10 ^ Z.of_nat 3) with 1000 in *.
    repeat constructor; lia.
  - rewrite Esub. unfold JS.parseInt.
    pose proof (number_below 2 p H5). change (10 ^ Z.of_nat 2) with 100 in *. lia.
Qed.

End PatternExtras.

(** ** [ipv4]: the named networks, the network bits, the widest masks, every host *)

Module Ipv4Extras.

Import InternetModule JSFacts IntFacts IntExtras BitFacts Ipv4Facts Ipv4Claims.
Import RomanClaims PatternExtras Decode Samples.
Local Open Scope Z_scope.

Ltac evaluate_bounds Hlo Hhi :=
  match type of Hlo with
  | ?lo <= _ => let v := eval vm_compute in lo in change lo with v in Hlo
  end;
  match type of Hhi with
  | _ <= ?hi => let v := eval vm_compute in hi in change hi with v in Hhi
  end.

(** X19.  For each of the ten named networks [ipv4({ network })] never throws:
    the block the table gives is well formed, and the address returned lies
    in the range the network stands for (first octet 10 for 'private-a',
    172.16 to 172.31 for 'private-b', 224 to 239 for 'multicast', ...). *)
Theorem ipv4_named_networks (network : IPv4Network) (rz : Randomizer.t) :
  Randomizer.valid rz ->
  valid_cidr (ipv4Networks network) = true
  /\ exists bytes : list Z,
       ipv4 {| cidrBlock := None; InternetModule.network := Some network |} rz
       = (Returns (dotted bytes), Randomizer.advance rz)
       /\ forallb is_byte bytes = true
       /\ in_network network bytes = true.
Proof.
  intros Hrz.
  split; [destruct network; reflexivity|].
  destruct (ipv4_contained
              {| cidrBlock := None; InternetModule.network := Some network |} rz Hrz)
    as [bytes [Run [Hlen [Hbytes [Hlo Hhi]]]]];
    [destruct network; reflexivity|].
  exists bytes. split; [exact Run|]. split; [exact Hbytes|].
  destruct bytes as [|a [|b [|c [|d [|]]]]]; try discriminate.
  cbn [forallb] in Hbytes. rewrite !andb_true_iff in Hbytes.
  destruct Hbytes as [Ha [Hb [Hc [Hd _]]]].
  apply is_byte_range in Ha, Hb, Hc, Hd.
  unfold address_value in Hlo, Hhi. cbn [fold_left] in Hlo, Hhi.
  destruct network; evaluate_bounds Hlo Hhi; unfold in_network;
    rewrite ?andb_true_iff, ?Z.eqb_eq, ?Z.leb_le; try reflexivity; lia.
Qed.

Lemma ipv4_named_networks_witness :
  valid_cidr (ipv4Networks PrivateB) = true
  /\ exists bytes : list Z,
       ipv4 {| cidrBlock := None; InternetModule.network := Some PrivateB |} rz_half
       = (Returns (dotted bytes), Randomizer.advance rz_half)
       /\ forallb is_byte bytes = true
       /\ in_network PrivateB bytes = true.
Proof.
  apply (ipv4_named_networks PrivateB rz_half).
  intros n. split; [discriminate | reflexivity].
Defined.

(** The prefix length of a block that matches the pattern. *)
Lemma accepted_prefix (cidrBlock : string) :
  cidrPattern_test cidrBlock = true ->
  0 <= JS.parseInt (subnet_of cidrBlock) < 100.
Proof.
  intros H. apply cidrPattern_spec in H.
  destruct H as [d1 [d2 [d3 [d4 [p [-> [H1 [H2 [H3 [H4 H5]]]]]]]]]].
  destruct (isDigits_all _ _ H1) as [A1 _]. destruct (isDigits_all _ _ H2) as [A2 _].
  destruct (isDigits_all _ _ H3) as [A3 _]. destruct (isDigits_all _ _ H4) as [A4 _].
  destruct (isDigits_all _ _ H5) as [A5 _].
  assert (Dslash := digit_is_not "/" eq_refl).
  assert (Esub : subnet_of (cidr_text d1 d2 d3 d4 p) = p).
  { unfold subnet_of, cidr_text.
    replace (d1 ++ "." ++ d2 ++ "." ++ d3 ++ "." ++ d4 ++ "/" ++ p)%string
      with ((d1 ++ "." ++ d2 ++ "." ++ d3 ++ "." ++ d4) ++ String "/" p)%string
      by (rewrite !append_associative; reflexivity).
    rewrite split_first, split_last.
    - reflexivity.
    - apply (all_impl _ _ _ Dslash A5).
    - rewrite !all_app.
      rewrite (all_impl _ _ _ Dslash A1), (all_impl _ _ _ Dslash A2),
        (all_impl _ _ _ Dslash A3), (all_impl _ _ _ Dslash A4).
      reflexivity. }
  rewrite Esub. unfold JS.parseInt.
  pose proof (number_below 2 p H5) as Hp.
  change (10 ^ Z.of_nat 2) with 100 in Hp. exact Hp.
Qed.

(** [rawIp & ~mask] for a mask of [k] ones: the low [k] bits are cleared. *)
Lemma networkIp_value (rawIp k : Z) :
  1 <= k <= 32 ->
  JS.toUint32 (JS.band rawIp (JS.bnot (Z.ones k)))
  = ((rawIp / 2 ^ k) mod 2 ^ (32 - k)) * 2 ^ k.
Proof.
  intros Hk.
  rewrite toUint32_band, toUint32_bnot, <- toUint32_land.
  rewrite <- Z.ldiff_land, Z.ldiff_ones_r by lia.
  rewrite Z.shiftr_div_pow2, Z.shiftl_mul_pow2 by lia.
  unfold JS.toUint32.
  replace (2 ^ 32) with (2 ^ (32 - k) * 2 ^ k)
    by (rewrite <- Z.pow_add_r by lia; f_equal; lia).
  apply Z.mul_mod_distr_r; [|lia].
  apply Z.pow_nonzero; lia.
Qed.

(** X27.  For a valid CIDR string with a prefix length from 0 to 31, the
    address returned keeps the network bits of the block: its first
    [prefixLength] bits are those of the address the block is written with
    (the 32-bit values agree once the [32 - prefixLength] host bits are
    dropped). *)
Theorem ipv4_keeps_network_bits (options : Ipv4Options) (rz : Randomizer.t) :
  Randomizer.valid rz ->
  valid_cidr (cidrBlock_of options) = true ->
  JS.parseInt (subnet_of (cidrBlock_of options)) <= 31 ->
  let prefixLength := JS.parseInt (subnet_of (cidrBlock_of options)) in
  let raw := rawOctets_of (cidrBlock_of options) in
  exists bytes : list Z,
    ipv4 options rz = (Returns (dotted bytes), Randomizer.advance rz)
    /\ List.length bytes = 4%nat
    /\ forallb is_byte bytes = true
    /\ address_value bytes / 2 ^ (32 - prefixLength)
       = address_value [nth 0 raw 0; nth 1 raw 0; nth 2 raw 0; nth 3 raw 0]
         / 2 ^ (32 - prefixLength).
Proof.
  intros Hrz Hvalid Hp prefixLength raw.
  destruct (valid_cidr_parts _ Hvalid) as [Hmatch [Hbytes _]].
  pose proof (accepted_prefix _ Hmatch) as Hprefix. fold prefixLength in Hprefix, Hp.
  destruct (ipv4_run options rz Hmatch) as [hostOffset [Run Hrange]].
  specialize (Hrange Hrz).
  exists (octets (JS.bor (networkIp_of (cidrBlock_of options)) hostOffset)).
  destruct (octets_value (JS.bor (networkIp_of (cidrBlock_of options)) hostOffset))
    as [Hvalue Hb].
  split; [exact Run|]. split; [reflexivity|]. split; [exact Hb|].
  assert (Hraw : JS.toUint32 (rawIp_of (cidrBlock_of options))
                 = address_value [nth 0 raw 0; nth 1 raw 0; nth 2 raw 0; nth 3 raw 0]).
  { unfold rawIp_of. cbv zeta. apply rawIp_value; apply nth_is_byte; exact Hbytes. }
  rewrite Hvalue, <- Hraw. clear Hraw Hvalue Hb Run.
  set (k := 32 - prefixLength).
  assert (Hk : 1 <= k <= 32) by (unfold k; lia).
  assert (Hmask : subnetMask_of (cidrBlock_of options) = Z.ones k).
  { unfold subnetMask_of. rewrite ushr_all_ones. fold prefixLength.
    unfold JS.toUint32.
    rewrite (Z.mod_small prefixLength (2 ^ 32)) by (change (2 ^ 32) with 4294967296; lia).
    rewrite (Z.mod_small prefixLength 32) by lia. reflexivity. }
  unfold networkIp_of. rewrite Hmask in *.
  generalize (rawIp_of (cidrBlock_of options)). intros rawIp.
  destruct (host_bits_contained rawIp k hostOffset Hk Hrange) as [A _].
  cbv zeta in A. rewrite A, (networkIp_value _ k Hk).
  assert (P : 0 < 2 ^ k) by (apply Z.pow_pos_nonneg; lia).
  assert (P' : 0 < 2 ^ (32 - k)) by (apply Z.pow_pos_nonneg; lia).
  rewrite Z.ones_equiv in Hrange.
  rewrite Z.div_add_l, (Z.div_small hostOffset) by lia.
  unfold JS.toUint32.
  replace (2 ^ 32) with (2 ^ k * 2 ^ (32 - k))
    by (rewrite <- Z.pow_add_r by lia; f_equal; lia).
  rewrite Z.rem_mul_r by lia.
  rewrite (Z.mul_comm (2 ^ k)), Z.div_add by lia.
  rewrite (Z.div_small (rawIp mod 2 ^ k)) by (apply Z.mod_pos_bound; lia).
  lia.
Qed.

Lemma ipv4_keeps_network_bits_witness :
  exists bytes : list Z,
    ipv4 (in_block "172.16.0.0/12") rz_half
    = (Returns (dotted bytes), Randomizer.advance rz_half)
    /\ List.length bytes = 4%nat
    /\ forallb is_byte bytes = true
    /\ address_value bytes / 2 ^ (32 - 12) = address_value [172; 16; 0; 0] / 2 ^ (32 - 12).
Proof.
  apply (ipv4_keeps_network_bits (in_block "172.16.0.0/12") rz_half).
  - intros n. split; [discriminate | reflexivity].
  - reflexivity.
  - discriminate.
Defined.

Lemma band_zero (x : Z) : JS.band x 0 = 0.
Proof.
  unfold JS.band. change (JS.toInt32 0) with 0. rewrite Z.land_0_r. reflexivity.
Qed.

(** X20.  A prefix length that is a multiple of 32 (so '/32' as well as '/0')
    shifts the mask by nothing: the mask is [0xffffffff], the network part is
    empty, and [ipv4] returns whatever [0.0.0.0/0] would return from the same
    draw, whichever address the block names. *)
Theorem ipv4_prefix_32_is_any (cidrBlock : string) (rz : Randomizer.t) :
  cidrPattern_test cidrBlock = true ->
  JS.parseInt (subnet_of cidrBlock) mod 32 = 0 ->
  subnetMask_of cidrBlock = 4294967295
  /\ networkIp_of cidrBlock = 0
  /\ ipv4 (in_block cidrBlock) rz = ipv4 (in_block "0.0.0.0/0") rz.
Proof.
  intros Hmatch Hp.
  assert (Emask : subnetMask_of cidrBlock = 4294967295).
  { unfold subnetMask_of. rewrite ushr_shift_mod_32, Hp. reflexivity. }
  assert (Enet : networkIp_of cidrBlock = 0).
  { unfold networkIp_of. rewrite Emask.
    change (JS.bnot 4294967295) with 0. apply band_zero. }
  split; [exact Emask|]. split; [exact Enet|].
  unfold ipv4.
  change (cidrBlock_of (in_block cidrBlock)) with cidrBlock.
  change (cidrPattern_test (cidrBlock_of (in_block "0.0.0.0/0"))) with true.
  rewrite Hmatch, Emask, Enet. reflexivity.
Qed.

Lemma ipv4_prefix_32_is_any_witness :
  subnetMask_of "192.168.1.7/32" = 4294967295
  /\ networkIp_of "192.168.1.7/32" = 0
  /\ ipv4 (in_block "192.168.1.7/32") rz_half = ipv4 (in_block "0.0.0.0/0") rz_half.
Proof.
  apply (ipv4_prefix_32_is_any "192.168.1.7/32" rz_half); reflexivity.
Defined.

(** The draw that gives the host offset [h]. *)
Lemma host_offset_draw (subnetMask h : Z) :
  1 <= subnetMask -> 0 <= h <= subnetMask ->
  (0 <= inject_Z h / inject_Z (subnetMask + 1)
   /\ inject_Z h / inject_Z (subnetMask + 1) < 1)%Q
  /\ NumberModule.int (NumberModule.IntNumber (inject_Z subnetMask))
       (constant_randomizer (inject_Z h / inject_Z (subnetMask + 1)))
     = (Returns h,
        Randomizer.advance (constant_randomizer (inject_Z h / inject_Z (subnetMask + 1)))).
Proof.
  intros Hmask Hh.
  set (r := (inject_Z h / inject_Z (subnetMask + 1))%Q).
  assert (Hd : (0 < inject_Z (subnetMask + 1))%Q).
  { change 0%Q with (inject_Z 0). rewrite <- Zlt_Qlt. lia. }
  assert (Hr : (0 <= r /\ r < 1)%Q).
  { unfold r. split.
    - apply Qle_shift_div_l; [exact Hd|]. rewrite Qmult_0_l.
      change 0%Q with (inject_Z 0). rewrite <- Zle_Qle. lia.
    - apply Qlt_shift_div_r; [exact Hd|]. rewrite Qmult_1_l.
      rewrite <- Zlt_Qlt. lia. }
  split; [exact Hr|].
  set (options := NumberModule.IntNumber (inject_Z subnetMask)).
  assert (Hint : JS.isInteger (NumberModule.multipleOf_of options) = true)
    by reflexivity.
  assert (Hpos : (0 < NumberModule.multipleOf_of options)%Q) by reflexivity.
  assert (Elo : NumberModule.effectiveMin (NumberModule.min_of options)
                  (NumberModule.multipleOf_of options) = 0) by reflexivity.
  assert (Ehi : NumberModule.effectiveMax (NumberModule.max_of options)
                  (NumberModule.multipleOf_of options) = subnetMask)
    by apply (effective_bounds_of_integer subnetMask).
  destruct (int_cases options (constant_randomizer r) Hint Hpos)
    as [E _ | L _ | L Run]; try lia.
  rewrite Run. f_equal. f_equal.
  rewrite Elo, Ehi. change (Qfloor (NumberModule.multipleOf_of options)) with 1.
  rewrite Z.mul_1_r, Z.sub_0_r.
  change (Randomizer.peek (constant_randomizer r)) with r.
  assert (E : (r * inject_Z (subnetMask + 1) + inject_Z 0 == inject_Z h)%Q).
  { unfold r. change (inject_Z 0) with 0%Q. field. lra. }
  rewrite E. apply Qfloor_Z.
Qed.

(** X21.  Every address of an accepted block can be returned: for each host
    offset [h] from 0 to [subnetMask] there is a draw in [0,1) for which
    [ipv4] returns the address of value [networkIp + h], the network address
    ([h = 0]) and the broadcast address ([h = subnetMask]) included. *)
Theorem ipv4_every_host_reachable (cidrBlock : string) (h : Z) :
  cidrPattern_test cidrBlock = true ->
  0 <= h <= subnetMask_of cidrBlock ->
  exists (r : Q) (bytes : list Z),
    (0 <= r /\ r < 1)%Q
    /\ ipv4 (in_block cidrBlock) (constant_randomizer r)
       = (Returns (dotted bytes), Randomizer.advance (constant_randomizer r))
    /\ forallb is_byte bytes = true
    /\ address_value bytes = JS.toUint32 (networkIp_of cidrBlock) + h.
Proof.
  intros Hmatch Hh.
  pose proof (subnetMask_at_least_1 cidrBlock) as Hmask.
  destruct (host_offset_draw (subnetMask_of cidrBlock) h Hmask Hh) as [Hr Run].
  set (r := (inject_Z h / inject_Z (subnetMask_of cidrBlock + 1))%Q) in *.
  exists r, (octets (JS.bor (networkIp_of cidrBlock) h)).
  split; [exact Hr|].
  destruct (octets_value (JS.bor (networkIp_of cidrBlock) h)) as [Hvalue Hbytes].
  split; [|split; [exact Hbytes|]].
  - unfold ipv4. change (cidrBlock_of (in_block cidrBlock)) with cidrBlock.
    rewrite Hmatch. cbn [negb]. unfold bind. rewrite Run. reflexivity.
  - rewrite Hvalue. unfold networkIp_of.
    destruct (subnetMask_ones cidrBlock) as [k [Hk Emask]].
    rewrite Emask in *.
    apply (host_bits_contained (rawIp_of cidrBlock) k h Hk Hh).
Qed.

Lemma ipv4_every_host_reachable_witness :
  exists (r : Q) (bytes : list Z),
    (0 <= r /\ r < 1)%Q
    /\ ipv4 (in_block "192.168.0.0/16") (constant_randomizer r)
       = (Returns (dotted bytes), Randomizer.advance (constant_randomizer r))
    /\ forallb is_byte bytes = true
    /\ address_value bytes = JS.toUint32 (networkIp_of "192.168.0.0/16") + 65535.
Proof.
  apply (ipv4_every_host_reachable "192.168.0.0/16" 65535).
  - reflexivity.
  - split; discriminate.
Defined.

End Ipv4Extras.

(** ** [password] *)

Module PasswordExtras.

Import NumberModule InternetModule JSFacts IntFacts IntExtras InternetExtras.
Import RomanClaims PatternExtras Decode Samples.
Local Open Scope Z_scope.

Lemma candidate_run (rz : Randomizer.t) :
  exists n : Z,
    int (IntNumber 94) rz = (Returns n, Randomizer.advance rz)
    /\ (Randomizer.valid rz -> 0 <= n <= 94).
Proof.
  apply (int_zero_to (IntNumber 94) 94 rz eq_refl eq_refl eq_refl). lia.
Qed.

Lemma fromCodePoint_candidate (n : Z) :
  0 <= n <= 94 -> isCandidate (JS.fromCodePoint (n + 33)) = true.
Proof.
  intros Hn. unfold isCandidate, JS.fromCodePoint.
  rewrite nat_ascii_embedding by lia.
  apply andb_true_iff. rewrite !Nat.leb_le. lia.
Qed.

Lemma toLowerCase_facts (c : ascii) :
  JS.isUpper (JS.toLowerCase c) = false
  /\ (isCandidate c = true -> isCandidate (JS.toLowerCase c) = true).
Proof.
  destruct c as [[] [] [] [] [] [] [] []]; split; reflexivity || discriminate.
Qed.

Lemma letter_classes (c : ascii) :
  (isVowel c && isConsonant c = false)
  /\ (isVowel c || isConsonant c = true -> JS.isUpper c = false -> JS.isLower c = true).
Proof.
  destruct c as [[] [] [] [] [] [] [] []]; split; reflexivity || discriminate.
Qed.

Lemma lastChar_snoc (t : string) (c : ascii) :
  JS.lastChar (t ++ String c EmptyString) = Some c.
Proof.
  induction t as [|a t IH]; [reflexivity|].
  cbn [append JS.lastChar]. rewrite IH.
  destruct (t ++ String c EmptyString)%string eqn:E; [|reflexivity].
  destruct t; discriminate.
Qed.

Lemma length_snoc (t : string) (c : ascii) :
  String.length (t ++ String c EmptyString) = S (String.length t).
Proof.
  induction t as [|a t IH]; [reflexivity|]. cbn [append String.length]. now rewrite IH.
Qed.

Lemma length_app (t u : string) :
  String.length (t ++ u) = (String.length t + String.length u)%nat.
Proof.
  induction t as [|a t IH]; [reflexivity|]. cbn [append String.length]. now rewrite IH.
Qed.

(** What a finished call has built. *)
Lemma _password_builds (fuel : nat) :
  forall (length : Q) (memorable : bool) (pattern : RegExp) (prefix : string)
         (rz rz' : Randomizer.t) (s : string),
    Randomizer.valid rz ->
    _password fuel length memorable pattern prefix rz = (Returns (Some s), rz') ->
    exists (suffix : string) (draws : nat),
      s = (prefix ++ suffix)%string
      /\ (length <= inject_Z (Z.of_nat (String.length s)))%Q
      /\ (suffix <> EmptyString ->
          (inject_Z (Z.of_nat (String.length s) - 1) < length)%Q)
      /\ appended (if memorable then accepts_memorable else accepts_plain pattern)
                  prefix suffix = true
      /\ rz' = Nat.iter draws Randomizer.advance rz
      /\ (String.length suffix <= draws < fuel)%nat.
Proof.
  induction fuel as [|fuel IH];
    intros length memorable pattern prefix rz rz' s Hrz Run.
  - discriminate.
  - cbn [_password] in Run.
    destruct (Qle_bool length (inject_Z (Z.of_nat (String.length prefix)))) eqn:Hlen.
    + injection Run as <- <-.
      exists EmptyString, O. rewrite append_empty_r.
      split; [reflexivity|]. split; [apply Qle_bool_iff; exact Hlen|].
      split; [congruence|]. split; [reflexivity|]. split; [reflexivity|].
      simpl. lia.
    + apply Qle_bool_false in Hlen.
      destruct (candidate_run rz) as [n [RunN Hn]]. specialize (Hn Hrz).
      unfold bind at 1 in Run. rewrite RunN in Run.
      pose proof (fromCodePoint_candidate n Hn) as Hcand.
      set (char := if memorable then JS.toLowerCase (JS.fromCodePoint (n + 33))
                   else JS.fromCodePoint (n + 33)) in *.
      set (pattern' := if memorable then (if consonant prefix then vowel else consonant)
                       else pattern) in *.
      assert (Hsame :
        (if memorable then accepts_memorable else accepts_plain pattern')
        = (if memorable then accepts_memorable else accepts_plain pattern)).
      { unfold pattern'. destruct memorable; reflexivity. }
      destruct (pattern' (String char EmptyString)) eqn:Haccept; cbn [negb] in Run.
      * apply IH in Run; [|apply valid_advance; exact Hrz].
        destruct Run as [suffix [draws [Es [Hlong [Hshort [Happ [Erz Hdraws]]]]]]].
        exists (String char suffix), (S draws).
        split; [rewrite Es, append_associative; reflexivity|].
        split; [exact Hlong|].
        split.
        { intros _. destruct suffix as [|c suffix].
          - rewrite Es, append_empty_r, length_snoc.
            replace (Z.of_nat (S (String.length prefix)) - 1)
              with (Z.of_nat (String.length prefix)) by lia.
            exact Hlen.
          - apply Hshort. discriminate. }
        split.
        { cbn [appended]. rewrite Hsame in Happ. rewrite Happ, andb_true_r.
          unfold char, pattern' in *. destruct memorable.
          - unfold accepts_memorable.
            destruct (toLowerCase_facts (JS.fromCodePoint (n + 33))) as [Hup Hc].
            rewrite (Hc Hcand), Hup. cbn [negb andb].
            destruct (consonant prefix); exact Haccept.
          - unfold accepts_plain. rewrite Hcand, Haccept. reflexivity. }
        split; [rewrite Erz, Nat.iter_succ_r; reflexivity|].
        cbn [String.length]. lia.
      * apply IH in Run; [|apply valid_advance; exact Hrz].
        destruct Run as [suffix [draws [Es [Hlong [Hshort [Happ [Erz Hdraws]]]]]]].
        exists suffix, (S draws).
        split; [exact Es|]. split; [exact Hlong|]. split; [exact Hshort|].
        split; [rewrite <- Hsame; exact Happ|].
        split; [rewrite Erz, Nat.iter_succ_r; reflexivity|]. lia.
Qed.

Lemma appended_plain (pattern : RegExp) (suffix : string) :
  forall t : string,
    appended (accepts_plain pattern) t suffix = true ->
    all isCandidate suffix = true
    /\ all (fun c => pattern (String c EmptyString)) suffix = true.
Proof.
  induction suffix as [|c suffix IH]; intros t H; [split; reflexivity|].
  cbn [appended] in H. apply andb_true_iff in H. destruct H as [Hc Hrest].
  unfold accepts_plain in Hc. apply andb_true_iff in Hc. destruct Hc as [Hcand Hpat].
  destruct (IH _ Hrest) as [A B].
  cbn [all]. rewrite Hcand, Hpat, A, B. split; reflexivity.
Qed.

Lemma appended_memorable (suffix : string) :
  forall t : string,
    appended accepts_memorable t suffix = true ->
    all JS.isLower suffix = true /\ alternating suffix = true.
Proof.
  induction suffix as [|c suffix IH]; intros t H; [split; reflexivity|].
  cbn [appended] in H. apply andb_true_iff in H. destruct H as [Hc Hrest].
  destruct (IH _ Hrest) as [A B].
  unfold accepts_memorable in Hc. rewrite !andb_true_iff, negb_true_iff in Hc.
  destruct Hc as [[Hcand Hup] Hclass].
  destruct (letter_classes c) as [Hdisjoint Hlower].
  assert (Hletter : isVowel c || isConsonant c = true).
  { destruct (consonant t); rewrite Hclass; [reflexivity | apply orb_true_r]. }
  split.
  - cbn [all]. rewrite (Hlower Hletter Hup), A. reflexivity.
  - destruct suffix as [|c' suffix]; [reflexivity|].
    change (alternating (String c (String c' suffix)))
      with (negb (isVowel c && isVowel c') && negb (isConsonant c && isConsonant c')
            && alternating (String c' suffix)).
    rewrite B, andb_true_r.
    cbn [appended] in Hrest. apply andb_true_iff in Hrest. destruct Hrest as [Hc' _].
    unfold accepts_memorable in Hc'. rewrite !andb_true_iff in Hc'.
    destruct Hc' as [_ Hclass'].
    unfold consonant in Hclass'. rewrite lastChar_snoc in Hclass'.
    destruct (letter_classes c') as [Hdisjoint' _].
    destruct (isConsonant c) eqn:Hcons.
    + rewrite Hclass' in *. rewrite andb_true_l in Hdisjoint'.
      rewrite Hdisjoint'. rewrite andb_comm in Hdisjoint. rewrite andb_true_l in Hdisjoint.
      rewrite Hdisjoint. reflexivity.
    + rewrite Hclass' in *. rewrite andb_true_r in Hdisjoint'.
      rewrite Hdisjoint'. rewrite andb_false_r. reflexivity.
Qed.

(** X22.  When [password] returns without the [memorable] option, the result
    is the prefix followed by the shortest run of characters that brings it to
    the length asked for (none when the prefix is already that long): each
    character appended has a code point from 33 to 127 and passes the pattern
    ([/\w/] by default), and each has cost one draw at least. *)
Theorem password_matches_pattern
  (fuel : nat) (options : PasswordOptions) (rz rz' : Randomizer.t) (s : string) :
  Randomizer.valid rz ->
  JS.default false (pw_memorable options) = false ->
  password fuel options rz = (Returns (Some s), rz') ->
  exists (suffix : string) (draws : nat),
    s = (JS.default EmptyString (pw_prefix options) ++ suffix)%string
    /\ (JS.default 15 (pw_length options) <= inject_Z (Z.of_nat (String.length s)))%Q
    /\ (suffix <> EmptyString ->
        (inject_Z (Z.of_nat (String.length s) - 1) < JS.default 15 (pw_length options))%Q)
    /\ all isCandidate suffix = true
    /\ all (fun c => JS.default word (pw_pattern options) (String c EmptyString))
           suffix = true
    /\ rz' = Nat.iter draws Randomizer.advance rz
    /\ (String.length suffix <= draws)%nat.
Proof.
  intros Hrz Hmem Run. unfold password in Run. rewrite Hmem in Run.
  destruct (_password_builds _ _ _ _ _ _ _ _ Hrz Run)
    as [suffix [draws [Es [Hlong [Hshort [Happ [Erz Hdraws]]]]]]].
  destruct (appended_plain _ _ _ Happ) as [A B].
  exists suffix, draws. repeat split; try assumption. lia.
Qed.

Lemma password_matches_pattern_witness :
  exists (suffix : string) (draws : nat),
    "bbb"%string = (EmptyString ++ suffix)%string
    /\ (3 <= inject_Z (Z.of_nat (String.length "bbb")))%Q
    /\ (suffix <> EmptyString ->
        (inject_Z (Z.of_nat (String.length "bbb") - 1) < 3)%Q)
    /\ all isCandidate suffix = true
    /\ all (fun c => word (String c EmptyString)) suffix = true
    /\ Nat.iter 3 Randomizer.advance rz_letter_b
       = Nat.iter draws Randomizer.advance rz_letter_b
    /\ (String.length suffix <= draws)%nat.
Proof.
  apply (password_matches_pattern 10 pw_three rz_letter_b
           (Nat.iter 3 Randomizer.advance rz_letter_b) "bbb").
  - intros n. split; [discriminate | reflexivity].
  - reflexivity.
  - reflexivity.
Defined.

(** X23.  When [password] returns with the [memorable] option, the result is
    the prefix followed by lower-case letters only, in which no two
    neighbours are both vowels or both consonants, up to the length asked
    for; the [pattern] option plays no part. *)
Theorem password_memorable_alternates
  (fuel : nat) (options : PasswordOptions) (rz rz' : Randomizer.t) (s : string) :
  Randomizer.valid rz ->
  JS.default false (pw_memorable options) = true ->
  password fuel options rz = (Returns (Some s), rz') ->
  (exists suffix : string,
      s = (JS.default EmptyString (pw_prefix options) ++ suffix)%string
      /\ (JS.default 15 (pw_length options) <= inject_Z (Z.of_nat (String.length s)))%Q
      /\ (suffix <> EmptyString ->
          (inject_Z (Z.of_nat (String.length s) - 1)
           < JS.default 15 (pw_length options))%Q)
      /\ all JS.isLower suffix = true
      /\ alternating suffix = true)
  /\ (forall pattern : option RegExp,
        password fuel {| pw_length := pw_length options;
                         pw_memorable := pw_memorable options;
                         pw_pattern := pattern;
                         pw_prefix := pw_prefix options |} rz
        = password fuel options rz).
Proof.
  intros Hrz Hmem Run. split.
  - unfold password in Run. rewrite Hmem in Run.
    destruct (_password_builds _ _ _ _ _ _ _ _ Hrz Run)
      as [suffix [draws [Es [Hlong [Hshort [Happ _]]]]]].
    destruct (appended_memorable _ _ Happ) as [A B].
    exists suffix. repeat split; assumption.
  - intros pattern. unfold password. cbn [pw_length pw_memorable pw_pattern pw_prefix].
    rewrite Hmem. destruct fuel as [|fuel]; reflexivity.
Qed.

Lemma password_memorable_alternates_witness :
  (exists suffix : string,
      "bade"%string = (EmptyString ++ suffix)%string
      /\ (4 <= inject_Z (Z.of_nat (String.length "bade")))%Q
      /\ (suffix <> EmptyString ->
          (inject_Z (Z.of_nat (String.length "bade") - 1) < 4)%Q)
      /\ all JS.isLower suffix = true
      /\ alternating suffix = true)
  /\ (forall pattern : option RegExp,
        password 10 {| pw_length := Some 4%Q; pw_memorable := Some true;
                       pw_pattern := pattern; pw_prefix := None |} rz_letters
        = password 10 pw_memorable_four rz_letters).
Proof.
  apply (password_memorable_alternates 10 pw_memorable_four rz_letters
           (Nat.iter 4 Randomizer.advance rz_letters) "bade").
  - intros n. unfold rz_letters. cbn [Randomizer.draws].
    destruct n as [|[|[|[|n]]]]; cbn [nth]; try (split; [discriminate | reflexivity]).
    destruct n; split; discriminate || reflexivity.
  - reflexivity.
  - reflexivity.
Defined.

(** X24.  A pattern that refuses every character from code point 33 to 127
    keeps [password] drawing for ever once the prefix is shorter than the
    length asked for: however many calls are allowed, all of them are spent,
    one draw each, and nothing is returned. *)
Theorem password_unbounded_retry
  (fuel : nat) (options : PasswordOptions) (rz : Randomizer.t) :
  Randomizer.valid rz ->
  JS.default false (pw_memorable options) = false ->
  (forall c : ascii, isCandidate c = true ->
                     JS.default word (pw_pattern options) (String c EmptyString) = false) ->
  (inject_Z (Z.of_nat (String.length (JS.default EmptyString (pw_prefix options))))
   < JS.default 15 (pw_length options))%Q ->
  password fuel options rz = (Returns None, Nat.iter fuel Randomizer.advance rz).
Proof.
  intros Hrz Hmem Hrefuse Hshort. unfold password. rewrite Hmem.
  set (length := JS.default 15%Q (pw_length options)) in *.
  set (pattern := JS.default word (pw_pattern options)) in *.
  set (prefix := JS.default EmptyString (pw_prefix options)) in *.
  clearbody length pattern prefix.
  revert rz Hrz. induction fuel as [|fuel IH]; intros rz Hrz; [reflexivity|].
  cbn [_password].
  replace (Qle_bool length (inject_Z (Z.of_nat (String.length prefix)))) with false
    by (symmetry; apply Qle_bool_false; exact Hshort).
  destruct (candidate_run rz) as [n [RunN Hn]]. specialize (Hn Hrz).
  unfold bind at 1. rewrite RunN.
  rewrite (Hrefuse _ (fromCodePoint_candidate n Hn)). cbn [negb].
  rewrite (IH _ (valid_advance _ Hrz)).
  rewrite Nat.iter_succ_r. reflexivity.
Qed.

Lemma password_unbounded_retry_witness :
  password 1000 pw_spaces rz_half
  = (Returns None, Nat.iter 1000 Randomizer.advance rz_half).
Proof.
  apply (password_unbounded_retry 1000 pw_spaces rz_half).
  - intros n. split; [discriminate | reflexivity].
  - reflexivity.
  - intros c. destruct c as [[] [] [] [] [] [] [] []]; intros H;
      reflexivity || discriminate H.
  - reflexivity.
Defined.



End PasswordExtras.

(** ** [bigInt]: the digits asked for reach every multiple *)

Module BigIntDigits.

Import NumberModule BigIntClaims BigIntExtras Samples.
Local Open Scope Z_scope.

Lemma of_uint_acc_bounds (d : Decimal.uint) :
  forall acc : positive,
    Z.pos acc * 10 ^ Z.of_nat (Decimal.nb_digits d)
    <= Z.pos (Pos.of_uint_acc d acc)
    < (Z.pos acc + 1) * 10 ^ Z.of_nat (Decimal.nb_digits d).
Proof.
  induction d; intros acc; cbn [Pos.of_uint_acc Decimal.nb_digits];
    [ rewrite Z.pow_0_r; lia | .. ];
    rewrite Nat2Z.inj_succ, Z.pow_succ_r by lia;
    match goal with
    | |- context [Pos.of_uint_acc d ?a] => specialize (IHd a)
    end;
    assert (0 < 10 ^ Z.of_nat (Decimal.nb_digits d)) by (apply Z.pow_pos_nonneg; lia);
    nia.
Qed.

(** A string of digits stands for a number below [10 ^ length]. *)
Lemma of_uint_below (d : Decimal.uint) :
  0 <= Z.of_uint d < 10 ^ Z.of_nat (Decimal.nb_digits d).
Proof.
  unfold Z.of_uint.
  induction d; cbn [Pos.of_uint Decimal.nb_digits];
    [ cbn; lia | .. ];
    rewrite Nat2Z.inj_succ, Z.pow_succ_r by lia;
    assert (0 < 10 ^ Z.of_nat (Decimal.nb_digits d)) by (apply Z.pow_pos_nonneg; lia);
    try (cbn [Z.of_N];
         match goal with
         | |- context [Pos.of_uint_acc d ?a] => pose proof (of_uint_acc_bounds d a)
         end; nia).
  lia.
Qed.

(** Without a leading zero the number is at least [10 ^ (length - 1)]. *)
Lemma of_uint_at_least (d : Decimal.uint) :
  Decimal.nzhead d = d -> d <> Decimal.Nil ->
  10 ^ (Z.of_nat (Decimal.nb_digits d) - 1) <= Z.of_uint d.
Proof.
  unfold Z.of_uint. intros Hhead Hnil.
  destruct d; try congruence;
    cbn [Pos.of_uint Decimal.nb_digits Z.of_N];
    try (rewrite Nat2Z.inj_succ;
         replace (Z.succ (Z.of_nat (Decimal.nb_digits d)) - 1)
           with (Z.of_nat (Decimal.nb_digits d)) by lia;
         match goal with
         | |- context [Pos.of_uint_acc d ?a] => pose proof (of_uint_acc_bounds d a)
         end;
         assert (0 < 10 ^ Z.of_nat (Decimal.nb_digits d))
           by (apply Z.pow_pos_nonneg; lia);
         nia).
  exfalso. cbn [Decimal.nzhead] in Hhead.
  pose proof (DecimalFacts.nb_digits_nzhead d) as H.
  rewrite Hhead in H. cbn [Decimal.nb_digits] in H. lia.
Qed.

Lemma to_uint_normal (p : positive) :
  Decimal.nzhead (Pos.to_uint p) = Pos.to_uint p.
Proof.
  pose proof (DecimalPos.Unsigned.to_of (Pos.to_uint p)) as H.
  rewrite DecimalPos.Unsigned.of_to in H. cbn [N.to_uint] in H.
  unfold Decimal.unorm in H.
  destruct (Decimal.nzhead (Pos.to_uint p)) eqn:E; try (symmetry; exact H).
  exfalso. apply (DecimalPos.Unsigned.to_uint_nonzero p). exact H.
Qed.

Lemma to_uint_value (p : positive) : Z.of_uint (Pos.to_uint p) = Z.pos p.
Proof.
  unfold Z.of_uint. rewrite DecimalPos.Unsigned.of_to. reflexivity.
Qed.

(** [delta.toString(10).length] *)
Lemma toString_length (p : positive) :
  String.length (JS.toString (Z.pos p)) = Decimal.nb_digits (Pos.to_uint p).
Proof.
  unfold JS.toString. cbn [Z.to_int NilZero.string_of_int].
  unfold NilZero.string_of_uint.
  pose proof (DecimalPos.Unsigned.to_uint_nonnil p) as Hnil.
  assert (H : forall d, String.length (NilEmpty.string_of_uint d) = Decimal.nb_digits d).
  { induction d; cbn [NilEmpty.string_of_uint String.length Decimal.nb_digits];
      congruence. }
  destruct (Pos.to_uint p) eqn:E; try congruence; rewrite <- E; apply H.
Qed.

Lemma leading_zeros (n : nat) (d : Decimal.uint) :
  Z.of_uint (Nat.iter n Decimal.D0 d) = Z.of_uint d.
Proof.
  induction n as [|n IH]; [reflexivity|].
  cbn [Nat.iter]. unfold Z.of_uint in *. cbn [Pos.of_uint]. exact IH.
Qed.

(** Every number below [delta] can be written with as many digits as
    [delta] has. *)
Lemma digits_for_offset (delta : positive) (offset : Z) :
  0 <= offset < Z.pos delta ->
  exists digits : Decimal.uint,
    Decimal.nb_digits digits = String.length (JS.toString (Z.pos delta))
    /\ Z.of_uint digits = offset.
Proof.
  intros Ho. rewrite toString_length.
  set (L := Decimal.nb_digits (Pos.to_uint delta)).
  assert (HL : (1 <= L)%nat).
  { unfold L. pose proof (DecimalPos.Unsigned.to_uint_nonnil delta) as Hnil.
    destruct (Pos.to_uint delta); cbn; try congruence; lia. }
  destruct (Z.eq_dec offset 0) as [->|Hnz].
  - exists (Nat.iter L Decimal.D0 Decimal.Nil). split.
    + rewrite DecimalFacts.nb_digits_iter_D0. cbn. lia.
    + rewrite leading_zeros. reflexivity.
  - destruct offset as [|o|o]; try lia.
    set (d := Pos.to_uint o).
    assert (Hd : (Decimal.nb_digits d <= L)%nat).
    { destruct (Nat.le_gt_cases (Decimal.nb_digits d) L) as [H|H]; [exact H|].
      exfalso.
      pose proof (of_uint_at_least d (to_uint_normal o)
                    (DecimalPos.Unsigned.to_uint_nonnil o)) as Hlow.
      pose proof (of_uint_below (Pos.to_uint delta)) as Hup.
      unfold d in Hlow. rewrite to_uint_value in Hlow, Hup. fold d in Hlow. fold L in Hup.
      assert (10 ^ Z.of_nat L <= 10 ^ (Z.of_nat (Decimal.nb_digits d) - 1))
        by (apply Z.pow_le_mono_r; lia).
      lia. }
    exists (Nat.iter (L - Decimal.nb_digits d) Decimal.D0 d). split.
    + rewrite DecimalFacts.nb_digits_iter_D0. lia.
    + rewrite leading_zeros. apply to_uint_value.
Qed.

(** X26.  Every multiple of [multipleOf] inside [[min, max]] can be returned
    by [bigInt]: when the lattice has more than one point, some string of
    decimal digits of the length [bigInt] asks for (the number of digits of
    [delta], leading zeros allowed) makes it return [k * multipleOf]. *)
Theorem bigInt_every_multiple_reachable (options : BigIntArg) (k : Z) :
  0 < bigInt_multipleOf_of options ->
  bigInt_min_of options <= k * bigInt_multipleOf_of options <= bigInt_max_of options ->
  let lo := bigInt_effectiveMin (bigInt_min_of options) (bigInt_multipleOf_of options) in
  let hi := bigInt_effectiveMax (bigInt_max_of options) (bigInt_multipleOf_of options) in
  lo < hi ->
  exists digits : Decimal.uint,
    Decimal.nb_digits digits = String.length (JS.toString (hi - lo + 1))
    /\ forall (string_numeric : nat -> bool -> Randomizer.t -> Decimal.uint * Randomizer.t)
              (rz rz' : Randomizer.t),
         string_numeric (String.length (JS.toString (hi - lo + 1))) true rz
         = (digits, rz') ->
         bigInt string_numeric options rz
         = (Returns (k * bigInt_multipleOf_of options), rz').
Proof.
  intros Hm Hk lo hi Hlt.
  assert (Hrange : bigInt_min_of options <= bigInt_max_of options) by lia.
  assert (Hlo : lo <= k <= hi).
  { unfold lo, hi.
    rewrite (bigInt_effectiveMin_ceiling _ _ Hm), (bigInt_effectiveMax_floor _ _ Hm).
    split.
    - apply Z.lt_pred_le, (Z.mul_lt_mono_pos_r (bigInt_multipleOf_of options)); [lia|].
      Z.to_euclidean_division_equations; nia.
    - apply Z.lt_succ_r, (Z.mul_lt_mono_pos_r (bigInt_multipleOf_of options)); [lia|].
      Z.to_euclidean_division_equations; nia. }
  destruct (hi - lo + 1) as [|delta|delta] eqn:Edelta; try lia.
  destruct (digits_for_offset delta (k - lo) ltac:(lia)) as [digits [Hlen Hval]].
  exists digits. split; [exact Hlen|].
  intros string_numeric rz rz' Hdigits.
  rewrite (bigInt_checked string_numeric options rz Hrange Hm). cbv zeta.
  fold lo hi. rewrite Edelta.
  replace (lo =? hi) with false by (symmetry; apply Z.eqb_neq; lia).
  replace (hi <? lo) with false by (symmetry; apply Z.ltb_ge; lia).
  rewrite Hdigits, Hval.
  rewrite Z.rem_small by lia.
  f_equal. f_equal. lia.
Qed.

Lemma bigInt_every_multiple_reachable_witness :
  exists digits : Decimal.uint,
    Decimal.nb_digits digits = String.length (JS.toString (3 - -2 + 1))
    /\ forall (string_numeric : nat -> bool -> Randomizer.t -> Decimal.uint * Randomizer.t)
              (rz rz' : Randomizer.t),
         string_numeric (String.length (JS.toString (3 - -2 + 1))) true rz
         = (digits, rz') ->
         bigInt string_numeric big_uneven rz = (Returns (3 * 10), rz').
Proof.
  apply (bigInt_every_multiple_reachable big_uneven 3).
  - reflexivity.
  - split; discriminate.
  - reflexivity.
Defined.

End BigIntDigits.

(** ** Edge cases on binary64 numbers: a bound that is not a number, a range of one point *)

Module Binary64Extras.

Import PrimFloat SpecFloat FloatOps FloatAxioms Binary64.
Local Open Scope float_scope.

Lemma SFcompare_refl (x : spec_float) : x <> S754_nan -> SFcompare x x = Some Eq.
Proof.
  destruct x as [s | s | | s m e]; cbn [SFcompare]; try congruence; intros _.
  - destruct s; reflexivity.
  - rewrite Z.compare_refl.
    change (Pos.compare_cont Eq m m) with (Pos.compare m m).
    rewrite Pos.compare_refl. destruct s; reflexivity.
Qed.

(** There is one [NaN]. *)
Lemma is_nan_eq (x : number) : is_nan x = true -> x = nan.
Proof.
  unfold is_nan. rewrite eqb_spec. unfold SFeqb. intros H.
  rewrite <- (SF2Prim_Prim2SF x).
  destruct (Prim2SF x) as [s | s | | s m e] eqn:E; try reflexivity;
    rewrite SFcompare_refl in H by discriminate; discriminate.
Qed.

Lemma of_nan (x : number) : Prim2SF x = S754_nan -> x = nan.
Proof.
  intros H. rewrite <- (SF2Prim_Prim2SF x), H. reflexivity.
Qed.

(** [NaN] is absorbing for the four operations and false in every
    comparison. *)
Lemma nan_absorbs (x : number) :
  (nan / x = nan /\ nan * x = nan /\ x * nan = nan)
  /\ (nan + x = nan /\ x + nan = nan /\ nan - x = nan /\ x - nan = nan)
  /\ ((nan =? x) = false /\ (x =? nan) = false
      /\ (nan <? x) = false /\ (x <? nan) = false).
Proof.
  repeat split;
    try (apply of_nan;
         first [ rewrite div_spec | rewrite mul_spec
               | rewrite add_spec | rewrite sub_spec ];
         change (Prim2SF nan) with S754_nan;
         destruct (Prim2SF x) as [[|] | [|] | | [|] m e]; reflexivity);
    first [ rewrite eqb_spec | rewrite ltb_spec ];
    change (Prim2SF nan) with S754_nan;
    unfold SFeqb, SFltb;
    destruct (Prim2SF x); reflexivity.
Qed.

(** X28.  A bound that is [NaN] is not rejected: with a valid [multipleOf]
    (the default 1, say), [int] throws nothing when [min] or [max] is
    [NaN]; it draws once and returns [NaN]. *)
Theorem int_nan_bound_not_rejected (options : IntArg) (rz : Randomizer.t) :
  isInteger (multipleOf_of options) = true ->
  (multipleOf_of options <=? 0) = false ->
  is_nan (min_of options) = true \/ is_nan (max_of options) = true ->
  int options rz = (Returns nan, Randomizer.advance rz).
Proof.
  intros Hint Hpos Hnan. unfold int. rewrite Hint, Hpos. cbn [negb].
  unfold effectiveMin, effectiveMax.
  destruct Hnan as [Hnan | Hnan]; apply is_nan_eq in Hnan; rewrite Hnan.
  - set (hi := floor (max_of options / multipleOf_of options)).
    destruct (nan_absorbs (multipleOf_of options)) as [[D _] _]. rewrite D.
    change (ceil nan) with nan.
    destruct (nan_absorbs hi) as [_ [[_ [_ [_ S]]] [E [_ [_ L]]]]].
    rewrite E, L, S. unfold bind, next, ret.
    destruct (nan_absorbs 1) as [_ [[A _] _]]. rewrite A.
    destruct (nan_absorbs (Randomizer.peek rz)) as [[_ [_ M]] _]. rewrite M.
    destruct (nan_absorbs nan) as [_ [[A' _] _]]. rewrite A'.
    change (floor nan) with nan.
    destruct (nan_absorbs (multipleOf_of options)) as [[_ [M' _]] _]. rewrite M'.
    reflexivity.
  - set (lo := ceil (min_of options / multipleOf_of options)).
    destruct (nan_absorbs (multipleOf_of options)) as [[D _] _]. rewrite D.
    change (floor nan) with nan.
    destruct (nan_absorbs lo) as [_ [[A [_ [S _]]] [_ [E [L _]]]]].
    rewrite E, L, S. unfold bind, next, ret.
    destruct (nan_absorbs 1) as [_ [[A1 _] _]]. rewrite A1.
    destruct (nan_absorbs (Randomizer.peek rz)) as [[_ [_ M]] _]. rewrite M.
    rewrite A.
    change (floor nan) with nan.
    destruct (nan_absorbs (multipleOf_of options)) as [[_ [M' _]] _]. rewrite M'.
    reflexivity.
Qed.

Lemma int_nan_bound_not_rejected_witness :
  int (IntObject {| int_min := None; int_max := Some nan; int_multipleOf := None |})
      rz_half
  = (Returns nan, Randomizer.advance rz_half).
Proof.
  apply (int_nan_bound_not_rejected
           (IntObject {| int_min := None; int_max := Some nan; int_multipleOf := None |})
           rz_half).
  - reflexivity.
  - reflexivity.
  - right. reflexivity.
Defined.

(** A finite number is a zero or [(-1)^s * m * 2^e]. *)
Lemma finite_cases (x : number) :
  is_finite x = true ->
  (exists s, Prim2SF x = S754_zero s) \/ (exists s m e, Prim2SF x = S754_finite s m e).
Proof.
  unfold is_finite, is_nan, is_infinity.
  rewrite !eqb_spec, abs_spec.
  change (Prim2SF infinity) with (S754_infinity false).
  unfold SFeqb.
  destruct (Prim2SF x) as [s | [|] | | s m e]; cbn [SFcompare SFabs negb orb];
    intros H; try discriminate.
  - left. exists s. reflexivity.
  - right. exists s, m, e. reflexivity.
Qed.

(** A draw in [0,1) is finite. *)
Lemma draw_cases (r : number) :
  (0 <=? r) = true -> (r <? 1) = true ->
  (exists s, Prim2SF r = S754_zero s) \/ (exists s m e, Prim2SF r = S754_finite s m e).
Proof.
  rewrite leb_spec, ltb_spec.
  change (Prim2SF 0) with (S754_zero false).
  change (Prim2SF 1) with (S754_finite false 4503599627370496 (-52)).
  unfold SFleb, SFltb.
  destruct (Prim2SF r) as [s | [|] | | s m e]; cbn [SFcompare];
    intros H0 H1; try discriminate.
  - left. exists s. reflexivity.
  - right. exists s, m, e. reflexivity.
Qed.

Lemma same_spec (x y : number) : Prim2SF x = Prim2SF y -> x = y.
Proof.
  intros H. rewrite <- (SF2Prim_Prim2SF x), <- (SF2Prim_Prim2SF y), H. reflexivity.
Qed.

(** [x - x] is [+0] for a finite [x]. *)
Lemma sub_self (x : number) : is_finite x = true -> Prim2SF (x - x) = S754_zero false.
Proof.
  intros H. rewrite sub_spec.
  destruct (finite_cases x H) as [[s ->] | [s [m [e ->]]]].
  - destruct s; reflexivity.
  - unfold SF64sub, SFsub. rewrite Z.sub_diag. reflexivity.
Qed.

(** X29.  On a range of one point, [min = max] a finite number, [float]
    with neither [multipleOf] nor [fractionDigits] throws nothing (the range
    check only rejects [max < min]): it draws once and returns that number
    whatever the draw, so the upper bound is returned. *)
Theorem float_point_range_returns_bound
  (pow10 log10 : number -> number) (options : FloatArg) (rz : Randomizer.t) :
  Randomizer.valid rz ->
  float_multipleOf (float_normalize options) = None ->
  float_fractionDigits (float_normalize options) = None ->
  fmin_of options = fmax_of options ->
  is_finite (fmax_of options) = true ->
  exists v : number,
    float pow10 log10 options rz = (Returns v, Randomizer.advance rz)
    /\ (v =? fmax_of options) = true.
Proof.
  intros Hrz Hm Hd Heq Hfin.
  unfold float, fmultipleOf_of. rewrite Hm, Hd, Heq.
  set (x := fmax_of options) in *.
  assert (Hrefl : (x =? x) = true).
  { rewrite eqb_spec. unfold SFeqb. rewrite SFcompare_refl; [reflexivity|].
    destruct (finite_cases x Hfin) as [[s E] | [s [m [e E]]]]; rewrite E; discriminate. }
  assert (Hlt : (x <? x) = false).
  { rewrite ltb_spec. unfold SFltb. rewrite SFcompare_refl; [reflexivity|].
    destruct (finite_cases x Hfin) as [[s E] | [s [m [e E]]]]; rewrite E; discriminate. }
  rewrite Hlt. unfold bind, ret, next.
  eexists. split; [reflexivity|].
  destruct (Hrz (Randomizer.position rz)) as [R0 R1].
  fold (Randomizer.peek rz) in R0, R1.
  set (r := Randomizer.peek rz) in *.
  assert (Hprod : exists s, Prim2SF (r * (x - x)) = S754_zero s).
  { rewrite mul_spec, (sub_self x Hfin).
    destruct (draw_cases r R0 R1) as [[s ->] | [s [m [e ->]]]]; eexists; reflexivity. }
  destruct Hprod as [s Hprod].
  destruct (finite_cases x Hfin) as [[sx E] | [sx [m [e E]]]].
  - rewrite eqb_spec, add_spec, Hprod, E.
    destruct s, sx; reflexivity.
  - replace (r * (x - x) + x) with x; [exact Hrefl|].
    apply same_spec. rewrite add_spec, Hprod, E. reflexivity.
Qed.

Lemma float_point_range_returns_bound_witness :
  exists v : number,
    float pow10_at_samples log10_at_samples float_one_one rz_last
    = (Returns v, Randomizer.advance rz_last)
    /\ (v =? 1) = true.
Proof.
  apply (float_point_range_returns_bound
           pow10_at_samples log10_at_samples float_one_one rz_last).
  - intros n. split; reflexivity.
  - reflexivity.
  - reflexivity.
  - reflexivity.
  - reflexivity.
Defined.

End Binary64Extras.
